(** * ws-proxy: a shallow embedding of [src/proxy.js]

    The proxy accepts a browser WebSocket whose query string carries a token
    and an upstream address, opens a second WebSocket to that address with
    the token in an [X-Auth-Token] header, and relays frames between the two
    legs.  This file embeds the upgrade handler, the connection handler and
    the seven per-session event handlers as Rocq functions, and proves the
    properties the specification states about them.

    Conventions.
    - A JavaScript [string | undefined] is an [option string]; truthiness is
      [truthy].  A character of a Rocq [string] stands for one code unit.
    - Every call the handlers make on the outside world (the logger, the raw
      socket, the two WebSocket objects, the [WebSocket] constructor) is
      recorded as an [action]; a handler returns the actions it performed,
      the new session variables and how it completed (normally, or with an
      exception that escaped it).
    - The [ws] package is a dependency, not part of the repository.  What the
      handlers need from it and cannot see ([close] and the constructor may
      throw, the handshake may be refused) is a parameter, [wslib]. *)

From Stdlib Require Import ZArith String Ascii List Lia Bool DecimalString.
From stdpp Require Import gmap strings list.

Open Scope string_scope.
Open Scope list_scope.

(** ** JavaScript primitives used by the source *)

Module JS.

(** [!!v] for a [string | undefined]. *)
Definition truthy (v : option string) : bool :=
  match v with
  | Some s => negb (String.eqb s "")
  | None => false
  end.

(** [s.startsWith(p)]. *)
Definition startsWith (s p : string) : bool := String.prefix p s.

(** [s.substring(i, j)]: the code units from [min i j] up to, not
    including, [max i j], clamped to the string. *)
Definition substring2 (s : string) (i j : nat) : string :=
  String.substring (Nat.min i j) (Nat.max i j - Nat.min i j) s.

(** [s.substring(i)]: the code units from [i] to the end. *)
Definition substring1 (s : string) (i : nat) : string :=
  String.substring i (String.length s - i) s.

(** [s.split(',')]. *)
Fixpoint split_comma (s : string) : list string :=
  match s with
  | EmptyString => [""]
  | String c s' =>
      if Ascii.eqb c ","%char then "" :: split_comma s'
      else match split_comma s' with
           | x :: xs => String c x :: xs
           | [] => [String c ""]
           end
  end.

(** [arr.includes(x)] on an array of strings. *)
Definition includes (arr : list string) (x : string) : bool :=
  existsb (String.eqb x) arr.

(** [code || 1000] for a [number | undefined]: [0] is falsy. *)
Definition or_1000 (code : option Z) : Z :=
  match code with
  | Some n => if (n =? 0)%Z then 1000%Z else n
  | None => 1000%Z
  end.

(** [reason || ''] and [reason ? reason.toString() : ''], for a reason
    that is a byte buffer or absent. *)
Definition or_empty (reason : option string) : string :=
  match reason with
  | Some r => r
  | None => ""
  end.

(** [`${n}`] for an integer. *)
Definition show (n : Z) : string := NilZero.string_of_int (Z.to_int n).

(** Values placed in the logger's meta object. *)
#[local] Unset Elimination Schemes.
Inductive value :=
| Undefined
| Null
| Bool (b : bool)
| Num (n : Z)
| Str (s : string)
| Obj (fields : list (string * value)).
#[local] Set Elimination Schemes.

Definition of_string (v : option string) : value :=
  match v with Some s => Str s | None => Undefined end.

End JS.

(** ** The world the handlers act on *)

Inductive leg := Client | Upstream.

Inductive readyState := CONNECTING | OPEN | CLOSING | CLOSED.

Definition leg_eqb (a b : leg) : bool :=
  match a, b with
  | Client, Client | Upstream, Upstream => true
  | _, _ => false
  end.

Definition readyState_eqb (a b : readyState) : bool :=
  match a, b with
  | CONNECTING, CONNECTING | OPEN, OPEN | CLOSING, CLOSING | CLOSED, CLOSED => true
  | _, _ => false
  end.

(** A WebSocket message: the payload and its binary/text marking. *)
Record frame := Frame { data : string; isBinary : bool }.

(** The calls the proxy makes. *)
Inductive action :=
| Log (level message : string) (meta : list (string * JS.value))
| SocketWrite (text : string)            (* socket.write(text) *)
| SocketDestroy                          (* socket.destroy() *)
| HandleUpgrade                          (* wss.handleUpgrade(...) *)
| NewWebSocket (address : string) (headers : gmap string string)
               (rejectUnauthorized : bool) (* new WebSocket(address, {...}) *)
| Send (to : leg) (f : frame)            (* ws.send(data, { binary }) *)
| Close (on : leg) (code : Z) (reason : string). (* ws.close(code, reason) *)

(** [process.env]. *)
Record process_env := {
  env_ALLOWED_ORIGINS : option string;
  env_LOG_LEVEL : option string;
  env_REJECT_UNAUTHORIZED : option string
}.

(** The upgrade request as the handler reads it; each query parameter
    occurs at most once. *)
Record request := {
  pathname : option string;                 (* parsedUrl.pathname, or null *)
  query_token : option string;              (* parsedUrl.query.token *)
  query_server : option string;             (* parsedUrl.query.server *)
  header_origin : option string;            (* request.headers.origin *)
  header_sec_websocket_protocol : option string
}.

(** The parts of the [ws] package the handlers depend on without seeing
    them. *)
Record wslib := {
  (** [ws.close(code, reason)] on a socket in the given state throws with
      this message. *)
  close_error : readyState -> Z -> string -> option string;
  (** [new WebSocket(address, options)] throws with this message. *)
  ctor_error : string -> gmap string string -> option string;
  (** [wss.handleUpgrade] completes the handshake and calls back. *)
  handshake_completes : request -> bool
}.

(** How a handler completes. *)
Inductive completion := Normal | Throw (message : string).

Record result (S : Type) := Result {
  state : S;
  output : list action;
  outcome : completion
}.
Arguments Result {S} _ _ _.
Arguments state {S} _.
Arguments output {S} _.
Arguments outcome {S} _.

(** ** Configuration (lines 14-17) *)

Definition ALLOWED_ORIGINS (env : process_env) : option (list string) :=
  if JS.truthy (env_ALLOWED_ORIGINS env)
  then Some (JS.split_comma (JS.or_empty (env_ALLOWED_ORIGINS env)))
  else None.

Definition LOG_LEVEL (env : process_env) : string :=
  if JS.truthy (env_LOG_LEVEL env) then JS.or_empty (env_LOG_LEVEL env) else "info".

(** ** Logging (lines 19-32)

    The logger is a sink: the line it prints adds a timestamp and renders
    the meta object as JSON; the embedding keeps level, message and meta. *)

Definition log (env : process_env) (level message : string)
    (meta : list (string * JS.value)) : list action :=
  if String.eqb (LOG_LEVEL env) "debug" || negb (String.eqb level "debug")
  then [Log level message meta]
  else [].

Definition maskToken (token : string) : string :=
  if negb (JS.truthy (Some token)) || (String.length token <=? 8)%nat
  then "****"
  else JS.substring2 token 0 4 +:+ "..." +:+ JS.substring1 token (String.length token - 4).

(** ** The upgrade handler (lines 48-99) *)

Inductive verdict :=
| Rejected
| Accepted (token upstreamServer : string).

Definition reject (pre : list action) (warning : list action)
    (response : string) : list action * verdict :=
  (pre ++ warning ++ [SocketWrite response; SocketDestroy], Rejected).

Definition CRLF2 : string :=
  String (ascii_of_nat 13) (String (ascii_of_nat 10)
    (String (ascii_of_nat 13) (String (ascii_of_nat 10) ""))).

(** The handler on a request whose [token] and [server] occur at most
    once, where it always returns; [Full.upgrade] below is the handler on
    every request, with the [TypeError] a repeated [server] leads to. *)
Definition upgrade (env : process_env) (req : request) : list action * verdict :=
  let token := query_token req in
  let upstreamServer := query_server req in
  let origin := header_origin req in
  let incoming :=
    log env "info" "Incoming connection request"
      [("origin", JS.of_string origin);
       ("path", match pathname req with Some p => JS.Str p | None => JS.Null end);
       ("hasToken", JS.Bool (JS.truthy token));
       ("hasServer", JS.Bool (JS.truthy upstreamServer))] in
  if negb (JS.truthy token) then
    reject incoming
      (log env "warn" "Rejected: Missing token parameter" [])
      ("HTTP/1.1 400 Bad Request" +:+ CRLF2 +:+ "Missing token parameter")
  else if negb (JS.truthy upstreamServer) then
    reject incoming
      (log env "warn" "Rejected: Missing server parameter" [])
      ("HTTP/1.1 400 Bad Request" +:+ CRLF2 +:+ "Missing server parameter")
  else
    let t := JS.or_empty token in
    let u := JS.or_empty upstreamServer in
    if negb (JS.startsWith u "ws://") && negb (JS.startsWith u "wss://") then
      reject incoming
        (log env "warn" "Rejected: Invalid server format" [("server", JS.Str u)])
        ("HTTP/1.1 400 Bad Request" +:+ CRLF2
           +:+ "Invalid server parameter (must start with ws:// or wss://)")
    else
      match ALLOWED_ORIGINS env with
      | Some allowed =>
          if JS.truthy origin
             && (negb (JS.includes allowed (JS.or_empty origin))
                 && negb (JS.includes allowed "*"))
          then
            reject incoming
              (log env "warn" "Rejected: Origin not allowed"
                 [("origin", JS.of_string origin)])
              ("HTTP/1.1 403 Forbidden" +:+ CRLF2 +:+ "Origin not allowed")
          else (incoming ++ [HandleUpgrade], Accepted t u)
      | None => (incoming ++ [HandleUpgrade], Accepted t u)
      end.

(** *** The upgrade handler on every request

    [url.parse(request.url, true)] gives a string for a query parameter
    that occurs once and an array of strings for one that is repeated.
    [request] and [upgrade] above are the handler on the requests whose
    [token] and [server] occur at most once; [Full.upgrade] is the handler
    on every request, and agrees with [upgrade] on those. *)

Module Full.

(** [parsedUrl.query.name]. *)
Inductive query :=
| Absent                           (* undefined *)
| Single (s : string)
| Repeated (values : list string). (* an array, two values or more *)

Record request := Request {
  pathname : option string;
  token : query;
  server : query;
  origin : option string;
  sec_websocket_protocol : option string
}.

(** [!!q]: an array is truthy whatever it holds. *)
Definition truthy (q : query) : bool :=
  match q with
  | Absent => false
  | Single s => negb (String.eqb s "")
  | Repeated _ => true
  end.

Definition text (q : query) : string :=
  match q with
  | Single s => s
  | _ => ""
  end.

(** The handler returns, with the token and the address it hands to
    [handleUpgrade] when it accepts, or lets the [TypeError] of
    [upstreamServer.startsWith] escape when [server] is an array. *)
Definition upgrade (env : process_env) (req : request)
    : result (option (query * string)) :=
  let incoming :=
    log env "info" "Incoming connection request"
      [("origin", JS.of_string (origin req));
       ("path", match pathname req with Some p => JS.Str p | None => JS.Null end);
       ("hasToken", JS.Bool (truthy (token req)));
       ("hasServer", JS.Bool (truthy (server req)))] in
  let rejected pre warning response :=
    Result None (fst (reject pre warning response)) Normal in
  if negb (truthy (token req)) then
    rejected incoming
      (log env "warn" "Rejected: Missing token parameter" [])
      ("HTTP/1.1 400 Bad Request" +:+ CRLF2 +:+ "Missing token parameter")
  else if negb (truthy (server req)) then
    rejected incoming
      (log env "warn" "Rejected: Missing server parameter" [])
      ("HTTP/1.1 400 Bad Request" +:+ CRLF2 +:+ "Missing server parameter")
  else
    match server req with
    | Repeated _ =>
        Result None incoming (Throw "upstreamServer.startsWith is not a function")
    | _ =>
        let u := text (server req) in
        if negb (JS.startsWith u "ws://") && negb (JS.startsWith u "wss://") then
          rejected incoming
            (log env "warn" "Rejected: Invalid server format" [("server", JS.Str u)])
            ("HTTP/1.1 400 Bad Request" +:+ CRLF2
               +:+ "Invalid server parameter (must start with ws:// or wss://)")
        else
          match ALLOWED_ORIGINS env with
          | Some allowed =>
              if JS.truthy (origin req)
                 && (negb (JS.includes allowed (JS.or_empty (origin req)))
                     && negb (JS.includes allowed "*"))
              then
                rejected incoming
                  (log env "warn" "Rejected: Origin not allowed"
                     [("origin", JS.of_string (origin req))])
                  ("HTTP/1.1 403 Forbidden" +:+ CRLF2 +:+ "Origin not allowed")
              else Result (Some (token req, u)) (incoming ++ [HandleUpgrade]) Normal
          | None => Result (Some (token req, u)) (incoming ++ [HandleUpgrade]) Normal
          end
    end.


Definition of_query (q : option string) : query :=
  match q with
  | Some s => Single s
  | None => Absent
  end.

Definition to_query (q : query) : option string :=
  match q with
  | Single s => Some s
  | _ => None
  end.

(** [maskToken] (lines 29-32) on the token as the connection handler is
    given it.  An array has a [length] and no [substring]: up to eight
    values give "****", more make [token.substring] throw a [TypeError]
    ([None]). *)
Definition maskToken (t : query) : option string :=
  match t with
  | Absent => Some "****"
  | Single s => Some (maskToken s)
  | Repeated values => if (length values <=? 8)%nat then Some "****" else None
  end.

(** The headers object of lines 117-124; [X-Auth-Token] is the token as
    parsed, a string or an array. *)
Definition upstream_headers (t : query) (req : request) : gmap string query :=
  let headers : gmap string query := {[ "X-Auth-Token" := t ]} in
  if JS.truthy (sec_websocket_protocol req)
  then <[ "Sec-WebSocket-Protocol" := Single (JS.or_empty (sec_websocket_protocol req)) ]>
         headers
  else headers.

(** The connection handler up to the constructor call (lines 102-135):
    either [new WebSocket(upstreamServer, { headers, ... })] is called, or
    [maskToken(token)] of line 109, which is outside the [try] block, has
    thrown before. *)
Inductive attempt :=
| Constructs (address : string) (headers : gmap string query)
| Throws (message : string).

Definition connection (req : request) (t : query) (upstreamServer : string) : attempt :=
  match maskToken t with
  | Some _ => Constructs upstreamServer (upstream_headers t req)
  | None => Throws "token.substring is not a function"
  end.

End Full.

(** A request without repeated parameters as [upgrade] takes it, and
    back. *)
Definition narrow (req : Full.request) : request :=
  {| pathname := Full.pathname req;
     query_token := Full.to_query (Full.token req);
     query_server := Full.to_query (Full.server req);
     header_origin := Full.origin req;
     header_sec_websocket_protocol := Full.sec_websocket_protocol req |}.

Definition widen (req : request) : Full.request :=
  Full.Request (pathname req) (Full.of_query (query_token req))
    (Full.of_query (query_server req)) (header_origin req)
    (header_sec_websocket_protocol req).

(** ** The connection handler (lines 101-254) *)

(** The variables one connection's closures share, with the [readyState]
    of the two sockets they read. *)
Record session := Session {
  clientId : string;
  startTime : Z;
  clientWs : readyState;            (* clientWs.readyState *)
  upstreamWs : option readyState;   (* null, or upstreamWs.readyState *)
  isClosing : bool;
  messageBuffer : list frame
}.

Definition set_clientWs (rs : readyState) (s : session) : session :=
  Session (clientId s) (startTime s) rs (upstreamWs s) (isClosing s) (messageBuffer s).

Definition set_upstreamWs (rs : option readyState) (s : session) : session :=
  Session (clientId s) (startTime s) (clientWs s) rs (isClosing s) (messageBuffer s).

Definition set_isClosing (b : bool) (s : session) : session :=
  Session (clientId s) (startTime s) (clientWs s) (upstreamWs s) b (messageBuffer s).

Definition set_messageBuffer (b : list frame) (s : session) : session :=
  Session (clientId s) (startTime s) (clientWs s) (upstreamWs s) (isClosing s) b.

(** [ws.close] leaves a socket that is not yet closed in the closing
    state. *)
Definition closing_of (rs : readyState) : readyState :=
  match rs with
  | CLOSED => CLOSED
  | _ => CLOSING
  end.

Definition thrown (e : option string) : completion :=
  match e with
  | Some m => Throw m
  | None => Normal
  end.

Definition rejectUnauthorized (env : process_env) : bool :=
  negb (match env_REJECT_UNAUTHORIZED env with
        | Some v => String.eqb v "false"
        | None => false
        end).

Definition upstream_headers (token : string) (req : request) : gmap string string :=
  let headers : gmap string string := {[ "X-Auth-Token" := token ]} in
  if JS.truthy (header_sec_websocket_protocol req)
  then <[ "Sec-WebSocket-Protocol" := JS.or_empty (header_sec_websocket_protocol req) ]> headers
  else headers.

(** The handler up to the registration of the event handlers.  The result
    state is the session the closures share, or [None] when the constructor
    threw and no handler was registered. *)
Definition connection (lib : wslib) (env : process_env)
    (id : string) (now : Z) (req : request) (token upstreamServer : string)
    : result (option session) :=
  let connected :=
    log env "info" "Client connected"
      [("clientId", JS.Str id); ("server", JS.Str upstreamServer);
       ("token", JS.Str (maskToken token))] in
  let headers := upstream_headers token req in
  let connecting :=
    log env "debug" "Connecting to upstream"
      [("clientId", JS.Str id); ("server", JS.Str upstreamServer);
       ("headers", JS.Obj [("X-Auth-Token", JS.Str (maskToken token))])] in
  let construct := [NewWebSocket upstreamServer headers (rejectUnauthorized env)] in
  match ctor_error lib upstreamServer headers with
  | None =>
      Result (Some (Session id now OPEN (Some CONNECTING) false []))
             (connected ++ connecting ++ construct) Normal
  | Some message =>
      let failed :=
        log env "error" "Failed to create upstream connection"
          [("clientId", JS.Str id); ("error", JS.Str message)] in
      Result None
             (connected ++ connecting ++ construct ++ failed
                ++ [Close Client 1011 "Failed to connect to upstream server"])
             (thrown (close_error lib OPEN 1011 "Failed to connect to upstream server"))
  end.

(** One upgrade request from arrival to the registered session: the
    upgrade handler, then the connection handler when the request is
    accepted and the handshake completes. *)
Definition serve (lib : wslib) (env : process_env) (id : string) (now : Z)
    (req : request) : result (option session) :=
  match upgrade env req with
  | (acts, Rejected) => Result None acts Normal
  | (acts, Accepted token upstreamServer) =>
      if handshake_completes lib req then
        let r := connection lib env id now req token upstreamServer in
        Result (state r) (acts ++ output r) (outcome r)
      else Result None acts Normal
  end.

(** ** The event handlers of one session (lines 140-245) *)

Definition bytes (f : frame) : JS.value := JS.Num (Z.of_nat (String.length (data f))).

(** [upstreamWs.on('open')]. *)
Definition on_upstream_open (env : process_env) (s : session) : result session :=
  let established :=
    log env "info" "Upstream connection established" [("clientId", JS.Str (clientId s))] in
  if (0 <? length (messageBuffer s))%nat then
    let sending :=
      log env "debug"
        ("Sending " +:+ JS.show (Z.of_nat (length (messageBuffer s))) +:+ " buffered message(s)")
        [("clientId", JS.Str (clientId s))] in
    Result (set_messageBuffer [] s)
           (established ++ sending ++ map (Send Upstream) (messageBuffer s))
           Normal
  else Result s established Normal.

(** [upstreamWs.on('message')]. *)
Definition on_upstream_message (env : process_env) (s : session) (f : frame)
    : result session :=
  if readyState_eqb (clientWs s) OPEN then
    Result s
           (Send Client f
              :: log env "debug" "Forwarded message upstream->client"
                   [("clientId", JS.Str (clientId s)); ("bytes", bytes f);
                    ("binary", JS.Bool (isBinary f))])
           Normal
  else Result s [] Normal.

(** [clientWs.on('message')]. *)
Definition on_client_message (env : process_env) (s : session) (f : frame)
    : result session :=
  match upstreamWs s with
  | Some OPEN =>
      Result s
             (Send Upstream f
                :: log env "debug" "Forwarded message client->upstream"
                     [("clientId", JS.Str (clientId s)); ("bytes", bytes f);
                      ("binary", JS.Bool (isBinary f))])
             Normal
  | _ =>
      Result (set_messageBuffer (messageBuffer s ++ [f]) s)
             (log env "debug" "Buffering message (upstream not ready)"
                [("clientId", JS.Str (clientId s)); ("bytes", bytes f)])
             Normal
  end.

(** [upstreamWs.on('error')]: the close call is not inside a [try]. *)
Definition on_upstream_error (lib : wslib) (env : process_env) (s : session)
    (message : string) : result session :=
  let logged :=
    log env "error" "Upstream error"
      [("clientId", JS.Str (clientId s)); ("error", JS.Str message)] in
  if negb (isClosing s) then
    Result (set_clientWs (closing_of (clientWs s)) (set_isClosing true s))
           (logged ++ [Close Client 1011 "Upstream connection error"])
           (thrown (close_error lib (clientWs s) 1011 "Upstream connection error"))
  else Result s logged Normal.

Definition closed_meta (s : session) (now : Z) (code : option Z)
    (reason : option string) : list (string * JS.value) :=
  [("clientId", JS.Str (clientId s));
   ("code", JS.Num (JS.or_1000 code));
   ("reason", JS.Str (JS.or_empty reason));
   ("duration", JS.Str (JS.show (now - startTime s) +:+ "ms"))].

(** The [catch] clause of the two close handlers. *)
Definition caught (env : process_env) (s : session) (what : string)
    (e : option string) : list action :=
  match e with
  | Some m => log env "warn" what [("clientId", JS.Str (clientId s)); ("error", JS.Str m)]
  | None => []
  end.

(** [upstreamWs.on('close')]. *)
Definition on_upstream_close (lib : wslib) (env : process_env) (s : session)
    (now : Z) (code : option Z) (reason : option string) : result session :=
  let logged := log env "info" "Upstream connection closed" (closed_meta s now code reason) in
  if negb (isClosing s) then
    Result (set_clientWs (closing_of (clientWs s)) (set_isClosing true s))
           (logged ++ [Close Client (JS.or_1000 code) (JS.or_empty reason)]
              ++ caught env s "Error closing client connection"
                   (close_error lib (clientWs s) (JS.or_1000 code) (JS.or_empty reason)))
           Normal
  else Result s logged Normal.

(** [clientWs.on('close')]. *)
Definition on_client_close (lib : wslib) (env : process_env) (s : session)
    (now : Z) (code : option Z) (reason : option string) : result session :=
  let logged := log env "info" "Client connection closed" (closed_meta s now code reason) in
  match upstreamWs s with
  | Some rs =>
      if negb (isClosing s) then
        Result (set_upstreamWs (Some (closing_of rs)) (set_isClosing true s))
               (logged ++ [Close Upstream (JS.or_1000 code) (JS.or_empty reason)]
                  ++ caught env s "Error closing upstream connection"
                       (close_error lib rs (JS.or_1000 code) (JS.or_empty reason)))
               Normal
      else Result s logged Normal
  | None => Result s logged Normal
  end.

(** [clientWs.on('error')]: the close call is not inside a [try]. *)
Definition on_client_error (lib : wslib) (env : process_env) (s : session)
    (message : string) : result session :=
  let logged :=
    log env "error" "Client error"
      [("clientId", JS.Str (clientId s)); ("error", JS.Str message)] in
  match upstreamWs s with
  | Some rs =>
      if negb (isClosing s) then
        Result (set_upstreamWs (Some (closing_of rs)) (set_isClosing true s))
               (logged ++ [Close Upstream 1011 "Client connection error"])
               (thrown (close_error lib rs 1011 "Client connection error"))
      else Result s logged Normal
  | None => Result s logged Normal
  end.

(** ** Events and runs

    What the two sockets deliver to the handlers.  Before it emits an event
    [ws] moves the socket's [readyState]: to [OPEN] for ['open'], to
    [CLOSED] for ['close'], to [CLOSING] for ['error']; a close frame from
    the peer moves an open socket to [CLOSING] without running a handler
    ([PeerClosing]).  A socket emits ['open'] once, from [CONNECTING], and
    nothing after ['close']. *)
Inductive event :=
| UpstreamOpen
| UpstreamMessage (f : frame)
| ClientMessage (f : frame)
| UpstreamError (message : string)
| UpstreamClose (now : Z) (code : option Z) (reason : option string)
| ClientClose (now : Z) (code : option Z) (reason : option string)
| ClientError (message : string)
| PeerClosing (l : leg).

Definition step (lib : wslib) (env : process_env) (s : session) (e : event)
    : option (result session) :=
  match e with
  | UpstreamOpen =>
      match upstreamWs s with
      | Some CONNECTING => Some (on_upstream_open env (set_upstreamWs (Some OPEN) s))
      | _ => None
      end
  | UpstreamMessage f =>
      match upstreamWs s with
      | Some OPEN | Some CLOSING => Some (on_upstream_message env s f)
      | _ => None
      end
  | ClientMessage f =>
      match clientWs s with
      | OPEN | CLOSING => Some (on_client_message env s f)
      | _ => None
      end
  | UpstreamError message =>
      match upstreamWs s with
      | Some CLOSED | None => None
      | Some _ => Some (on_upstream_error lib env (set_upstreamWs (Some CLOSING) s) message)
      end
  | UpstreamClose now code reason =>
      match upstreamWs s with
      | Some CLOSED | None => None
      | Some _ => Some (on_upstream_close lib env (set_upstreamWs (Some CLOSED) s) now code reason)
      end
  | ClientClose now code reason =>
      match clientWs s with
      | CLOSED => None
      | _ => Some (on_client_close lib env (set_clientWs CLOSED s) now code reason)
      end
  | ClientError message =>
      match clientWs s with
      | CLOSED => None
      | _ => Some (on_client_error lib env (set_clientWs CLOSING s) message)
      end
  | PeerClosing Client =>
      match clientWs s with
      | OPEN => Some (Result (set_clientWs CLOSING s) [] Normal)
      | _ => None
      end
  | PeerClosing Upstream =>
      match upstreamWs s with
      | Some OPEN => Some (Result (set_upstreamWs (Some CLOSING) s) [] Normal)
      | _ => None
      end
  end.

(** A run: the events handled one after the other, each handler returning
    normally.  [None] when an event cannot occur in the state it meets or a
    handler lets an exception escape. *)
Fixpoint run (lib : wslib) (env : process_env) (s : session) (evs : list event)
    : option (session * list action) :=
  match evs with
  | [] => Some (s, [])
  | e :: evs' =>
      match step lib env s e with
      | Some (Result s' out Normal) =>
          match run lib env s' evs' with
          | Some (s'', out') => Some (s'', out ++ out')
          | None => None
          end
      | _ => None
      end
  end.

(** ** Observations on a list of actions *)

Definition sends (l : leg) (acts : list action) : list frame :=
  omap (fun a => match a with
                 | Send to f => if leg_eqb to l then Some f else None
                 | _ => None
                 end) acts.

Definition closes (acts : list action) : list (leg * Z * string) :=
  omap (fun a => match a with
                 | Close on code reason => Some (on, code, reason)
                 | _ => None
                 end) acts.

Definition connects (acts : list action) : list (string * gmap string string) :=
  omap (fun a => match a with
                 | NewWebSocket address headers _ => Some (address, headers)
                 | _ => None
                 end) acts.

Definition logs (acts : list action) : list action :=
  List.filter (fun a => match a with Log _ _ _ => true | _ => false end) acts.

Definition client_frames (evs : list event) : list frame :=
  omap (fun e => match e with ClientMessage f => Some f | _ => None end) evs.

Definition is_close_trigger (e : event) : bool :=
  match e with
  | UpstreamError _ | UpstreamClose _ _ _ | ClientClose _ _ _ | ClientError _ => true
  | _ => false
  end.

Definition written (acts : list action) : list string :=
  omap (fun a => match a with SocketWrite text => Some text | _ => None end) acts.

Definition keeps_upstream_open (e : event) : bool :=
  match e with
  | UpstreamMessage _ | ClientMessage _ | PeerClosing Client => true
  | _ => false
  end.

(** The sessions the proxy can be in: those the connection handler
    creates, after any run of events. *)
Definition initial (lib : wslib) (env : process_env) (s0 : session) : Prop :=
  exists id now req token upstreamServer,
    state (connection lib env id now req token upstreamServer) = Some s0.

Definition reachable (lib : wslib) (env : process_env) (s : session) : Prop :=
  exists s0 evs acts, initial lib env s0 /\ run lib env s0 evs = Some (s, acts).

(** The request with another token in its query string. *)
Definition with_token (t : string) (req : request) : request :=
  {| pathname := pathname req;
     query_token := Some t;
     query_server := query_server req;
     header_origin := header_origin req;
     header_sec_websocket_protocol := header_sec_websocket_protocol req |}.

(** ** The rules the theorems are stated against

    Written after the specification's sentences rather than after the
    code, so that each theorem compares two independent descriptions. *)

Module Spec.

(** A rejection response: status line, blank line, body. *)
Definition http_response (status : Z) (phrase body : string) : string :=
  "HTTP/1.1 " +:+ JS.show status +:+ " " +:+ phrase +:+ CRLF2 +:+ body.

(** Rules 1 to 3 of the validator, first failure first: the body of the
    400 response (for rule 3, with the hint the proxy appends), or [None]
    when the parameters pass. *)
Definition parameter_rule (req : request) : option string :=
  match query_token req with
  | None | Some "" => Some "Missing token parameter"
  | Some _ =>
      match query_server req with
      | None | Some "" => Some "Missing server parameter"
      | Some u =>
          if String.prefix "ws://" u then None
          else if String.prefix "wss://" u then None
          else Some "Invalid server parameter (must start with ws:// or wss://)"
      end
  end.

(** The close call a close-trigger maps to: the opposite leg, the code
    and the reason. *)
Definition close_of_trigger (e : event) : option (leg * Z * string) :=
  match e with
  | UpstreamError _ => Some (Client, 1011%Z, "Upstream connection error")
  | ClientError _ => Some (Upstream, 1011%Z, "Client connection error")
  | UpstreamClose _ code reason =>
      Some (Client,
            match code with Some 0%Z | None => 1000%Z | Some c => c end,
            match reason with Some r => r | None => "" end)
  | ClientClose _ code reason =>
      Some (Upstream,
            match code with Some 0%Z | None => 1000%Z | Some c => c end,
            match reason with Some r => r | None => "" end)
  | _ => None
  end.

(** A masked token: four stars for a token of at most eight characters,
    else the first four characters, three dots, the last four. *)
Definition masked (t : string) : string :=
  if (String.length t <=? 8)%nat then "****"
  else String.substring 0 4 t +:+ "..." +:+ String.substring (String.length t - 4) 4 t.

End Spec.

(** ** Example environments *)

Module Example.

(** [isValidStatusCode] and the reason limit of [ws] 8, which
    [WebSocket.close] checks on an open socket. *)
Definition isValidStatusCode (code : Z) : bool :=
  ((1000 <=? code)%Z && (code <=? 1014)%Z
     && negb (code =? 1004)%Z && negb (code =? 1005)%Z && negb (code =? 1006)%Z)
  || ((3000 <=? code)%Z && (code <=? 4999)%Z).

Definition ws_close_error (rs : readyState) (code : Z) (reason : string)
    : option string :=
  match rs with
  | OPEN =>
      if negb (isValidStatusCode code)
      then Some "First argument must be a valid error code number"
      else if (123 <? String.length reason)%nat
           then Some "The message must not be greater than 123 bytes"
           else None
  | _ => None
  end.

(** [handleUpgrade] of [ws] 8 answers 400 to a handshake whose
    [Sec-WebSocket-Protocol] header is present and empty, and does not call
    back. *)
Definition ws_handshake (r : request) : bool :=
  match header_sec_websocket_protocol r with
  | Some v => negb (String.eqb v "")
  | None => true
  end.

(** A library whose constructor succeeds. *)
Definition ws : wslib :=
  {| close_error := ws_close_error;
     ctor_error := fun _ _ => None;
     handshake_completes := ws_handshake |}.

(** A library whose constructor throws. *)
Definition ws_throwing : wslib :=
  {| close_error := ws_close_error;
     ctor_error := fun address _ => Some ("Invalid URL: " +:+ address);
     handshake_completes := ws_handshake |}.

Definition env_open : process_env :=
  {| env_ALLOWED_ORIGINS := None;
     env_LOG_LEVEL := Some "debug";
     env_REJECT_UNAUTHORIZED := None |}.

Definition env_a_com : process_env :=
  {| env_ALLOWED_ORIGINS := Some "https://a.com";
     env_LOG_LEVEL := None;
     env_REJECT_UNAUTHORIZED := None |}.

Definition req (token server origin protocol : option string) : request :=
  {| pathname := Some "/";
     query_token := token;
     query_server := server;
     header_origin := origin;
     header_sec_websocket_protocol := protocol |}.

Definition good : request :=
  req (Some "secret-token-0001") (Some "wss://broker.example/") None None.

Definition s0 : session := Session "client-1-abc" 100 OPEN (Some CONNECTING) false [].

Definition A : frame := Frame "A" false.
Definition B : frame := Frame "B" false.
Definition C : frame := Frame "C" false.
Definition D : frame := Frame "D" true.

End Example.

(** ** The rest of the program *)

(** *** The HTTP request listener (lines 34-43) *)

Inductive response_action :=
| WriteHead (status : Z) (headers : list (string * string)) (* res.writeHead *)
| EndResponse (body : string).                               (* res.end *)

Definition DQUOTE : string := String (ascii_of_nat 34) "".

(** [JSON.stringify({ status: 'ok', timestamp: Date.now() })]. *)
Definition health_body (now : Z) : string :=
  "{" +:+ DQUOTE +:+ "status" +:+ DQUOTE +:+ ":" +:+ DQUOTE +:+ "ok" +:+ DQUOTE
    +:+ "," +:+ DQUOTE +:+ "timestamp" +:+ DQUOTE +:+ ":" +:+ JS.show now +:+ "}".

Definition request_listener (now : Z) (url : string) : list response_action :=
  if String.eqb url "/health"
  then [WriteHead 200 [("Content-Type", "application/json")]; EndResponse (health_body now)]
  else [WriteHead 404 []; EndResponse "Not Found"].

(** *** Further observations *)

Definition is_log (a : action) : bool :=
  match a with
  | Log _ _ _ => true
  | _ => false
  end.

(** What the proxy does apart from logging. *)
Definition effects (acts : list action) : list action :=
  List.filter (fun a => negb (is_log a)) acts.

Definition tls_flags (acts : list action) : list bool :=
  omap (fun a => match a with
                 | NewWebSocket _ _ verify => Some verify
                 | _ => None
                 end) acts.


Definition upstream_frames (evs : list event) : list frame :=
  omap (fun e => match e with UpstreamMessage f => Some f | _ => None end) evs.

Definition keeps_client_open (e : event) : bool :=
  match e with
  | UpstreamOpen | UpstreamMessage _ | ClientMessage _ | PeerClosing Upstream => true
  | _ => false
  end.

(** The log line belongs to the session with this identifier: its meta
    object starts with the [clientId] field. *)
Definition tagged (id : string) (a : action) : Prop :=
  match a with
  | Log _ _ meta => head meta = Some ("clientId", JS.Str id)
  | _ => True
  end.

(** Two frames, events or sessions that differ at most in payload bytes. *)
Definition same_frame_shape (f g : frame) : Prop :=
  String.length (data f) = String.length (data g) /\ isBinary f = isBinary g.

Definition same_event_shape (e1 e2 : event) : Prop :=
  match e1, e2 with
  | UpstreamMessage f, UpstreamMessage g => same_frame_shape f g
  | ClientMessage f, ClientMessage g => same_frame_shape f g
  | _, _ => e1 = e2
  end.

Definition same_session_shape (s1 s2 : session) : Prop :=
  clientId s1 = clientId s2 /\ startTime s1 = startTime s2 /\
  clientWs s1 = clientWs s2 /\ upstreamWs s1 = upstreamWs s2 /\
  isClosing s1 = isClosing s2 /\
  length (messageBuffer s1) = length (messageBuffer s2).

(** Two environments with the same allow-list and TLS setting. *)
Definition same_policy (env1 env2 : process_env) : Prop :=
  env_ALLOWED_ORIGINS env1 = env_ALLOWED_ORIGINS env2 /\
  env_REJECT_UNAUTHORIZED env1 = env_REJECT_UNAUTHORIZED env2.

(** What a step is observed to do, logging apart. *)
Definition observed (r : result session) : session * list action * completion :=
  (state r, effects (output r), outcome r).

Definition client_is_open (s : session) : bool := readyState_eqb (clientWs s) OPEN.

(** The string contains a comma. *)
Definition has_comma (s : string) : Prop := In ","%char (list_ascii_of_string s).




(** ** The test scripts

    [tests/direct-broker-test.js] and the integration test that starts the
    proxy and connects through it. *)

Module BrokerTests.

(** [maskToken] of both scripts: six characters on either side. *)
Definition maskToken (token : string) : string :=
  if negb (JS.truthy (Some token)) || (String.length token <=? 8)%nat
  then "****"
  else JS.substring2 token 0 6 +:+ "..." +:+ JS.substring1 token (String.length token - 6).

(** [waitForProxyHealth] of the integration test.  [responses k] is what
    the request issued after [k] failures meets: the response callback with
    a status code, an ['error'] event, or neither ([http.get] is given no
    timeout, so a request that is never answered never fails either).  The
    result counts the requests issued and the 500 ms timers set; it is
    [Pending] when the promise is neither resolved nor rejected. *)
Definition maxRetries : nat := 10.

Inductive response :=
| Answered (statusCode : Z)
| Errored
| Unanswered.

Inductive settlement :=
| Resolved
| Failed (message : string)
| Pending.

Record health_wait := HealthWait {
  settled : settlement;
  requests : nat;
  timers : nat
}.

Fixpoint checkHealth (fuel : nat) (responses : nat -> response) (retries : nat)
    : option health_wait :=
  match fuel with
  | O => None
  | S fuel' =>
      let retry :=
        let retries := S retries in
        if (maxRetries <=? retries)%nat
        then Some (HealthWait (Failed "Proxy health check failed after max retries")
                     retries (retries - 1))
        else checkHealth fuel' responses retries in
      match responses retries with
      | Answered statusCode =>
          if (statusCode =? 200)%Z
          then Some (HealthWait Resolved (S retries) retries)
          else retry
      | Errored => retry
      | Unanswered => Some (HealthWait Pending (S retries) retries)
      end
  end.

Definition waitForProxyHealth (responses : nat -> response) : option health_wait :=
  checkHealth maxRetries responses 0.

(** A field of a parsed broker message, as far as the scripts look at it:
    absent, a string, or some other truthy or falsy value. *)
Inductive field :=
| Missing
| Text (s : string)
| Truthy
| Falsy.

Record message := Message { msg_type : field; msg_status : field }.

Definition field_truthy (f : field) : bool :=
  match f with
  | Text s => negb (String.eqb s "")
  | Truthy => true
  | Missing | Falsy => false
  end.

(** [f === 'text']. *)
Definition is_text (f : field) (text : string) : bool :=
  match f with
  | Text s => String.eqb s text
  | _ => false
  end.

Inductive class := MarketData | BrokerError | Other.

(** The message handler of [listenForMessages] (direct test). *)
Definition msgType (m : message) : field :=
  if field_truthy (msg_type m) then msg_type m
  else if is_text (msg_status m) "ERROR" then Text "ERROR" else Text "UNKNOWN".

Definition direct_class (m : message) : class :=
  if is_text (msgType m) "MD" then MarketData
  else if is_text (msgType m) "ERROR" || is_text (msg_status m) "ERROR" then BrokerError
  else Other.

(** The message handler of [waitForMarketData] (integration test). *)
Definition integration_class (m : message) : class :=
  if is_text (msg_type m) "Md" then MarketData
  else if is_text (msg_status m) "ERROR" then BrokerError
  else Other.

End BrokerTests.

(** The health request was answered with status 200. *)
Definition is_200 (r : BrokerTests.response) : Prop :=
  r = BrokerTests.Answered 200%Z.

(** The health request failed: another status, or an error. *)
Definition failed (r : BrokerTests.response) : Prop :=
  r = BrokerTests.Errored
  \/ exists statusCode, r = BrokerTests.Answered statusCode /\ statusCode <> 200%Z.

(** * Properties *)

(** ** Observations commute with the logger and with concatenation *)

Lemma log_cases env level message meta :
  log env level message meta = [] \/ log env level message meta = [Log level message meta].
Proof. unfold log. destruct (_ || _); auto. Qed.

Lemma written_log env level message meta : written (log env level message meta) = [].
Proof. destruct (log_cases env level message meta) as [-> | ->]; reflexivity. Qed.

Lemma connects_log env level message meta : connects (log env level message meta) = [].
Proof. destruct (log_cases env level message meta) as [-> | ->]; reflexivity. Qed.

Lemma closes_log env level message meta : closes (log env level message meta) = [].
Proof. destruct (log_cases env level message meta) as [-> | ->]; reflexivity. Qed.

Lemma sends_log l env level message meta : sends l (log env level message meta) = [].
Proof. destruct (log_cases env level message meta) as [-> | ->]; reflexivity. Qed.

Lemma logs_log env level message meta :
  logs (log env level message meta) = log env level message meta.
Proof. destruct (log_cases env level message meta) as [-> | ->]; reflexivity. Qed.

Lemma written_app a b : written (a ++ b) = written a ++ written b.
Proof. apply omap_app. Qed.

Lemma connects_app a b : connects (a ++ b) = connects a ++ connects b.
Proof. apply omap_app. Qed.

Lemma closes_app a b : closes (a ++ b) = closes a ++ closes b.
Proof. apply omap_app. Qed.

Lemma sends_app l a b : sends l (a ++ b) = sends l a ++ sends l b.
Proof. apply omap_app. Qed.

Lemma logs_app a b : logs (a ++ b) = logs a ++ logs b.
Proof. apply List.filter_app. Qed.

Lemma closes_caught env s what e : closes (caught env s what e) = [].
Proof. destruct e; simpl; [apply closes_log | reflexivity]. Qed.

Lemma connects_caught env s what e : connects (caught env s what e) = [].
Proof. destruct e; simpl; [apply connects_log | reflexivity]. Qed.

Lemma sends_caught l env s what e : sends l (caught env s what e) = [].
Proof. destruct e; simpl; [apply sends_log | reflexivity]. Qed.

Lemma sends_map_Send l (fs : list frame) :
  sends l (map (Send l) fs) = fs.
Proof.
  induction fs as [|f fs IH]; simpl; [reflexivity|].
  unfold sends in *. simpl. destruct l; simpl; now rewrite IH.
Qed.

Lemma sends_cons_Send l f acts : sends l (Send l f :: acts) = f :: sends l acts.
Proof. destruct l; reflexivity. Qed.

Lemma sends_cons_Close l on code reason acts :
  sends l (Close on code reason :: acts) = sends l acts.
Proof. reflexivity. Qed.

Lemma sends_cons_Send_Client f acts :
  sends Upstream (Send Client f :: acts) = sends Upstream acts.
Proof. reflexivity. Qed.

Lemma sends_cons_Send_Upstream f acts :
  sends Client (Send Upstream f :: acts) = sends Client acts.
Proof. reflexivity. Qed.

Lemma sends_map_Send_other (fs : list frame) :
  sends Client (map (Send Upstream) fs) = [].
Proof. induction fs as [|f fs IH]; simpl; [reflexivity | exact IH]. Qed.

Lemma closes_map_Send l (fs : list frame) : closes (map (Send l) fs) = [].
Proof. induction fs as [|f fs IH]; simpl; [reflexivity | exact IH]. Qed.

Lemma connects_map_Send l (fs : list frame) : connects (map (Send l) fs) = [].
Proof. induction fs as [|f fs IH]; simpl; [reflexivity | exact IH]. Qed.

Create Rewrite HintDb obs.
#[export] Hint Rewrite written_app connects_app closes_app sends_app logs_app
  written_log connects_log closes_log sends_log logs_log
  closes_caught connects_caught sends_caught
  sends_map_Send sends_map_Send_other closes_map_Send connects_map_Send
  app_nil_r : obs.

Ltac observe := repeat (autorewrite with obs; simpl).

(** ** JavaScript truthiness *)

Lemma truthy_Some s : JS.truthy (Some s) = true <-> s <> "".
Proof.
  simpl. destruct (String.eqb_spec s ""); simpl; split; congruence.
Qed.

Lemma truthy_true v : JS.truthy v = true <-> exists s, v = Some s /\ s <> "".
Proof.
  destruct v as [s|].
  - rewrite truthy_Some. split; [eauto | intros (? & [= <-] & ?); assumption].
  - simpl. split; [discriminate | intros (? & ? & ?); discriminate].
Qed.

Lemma includes_In arr x : JS.includes arr x = true <-> In x arr.
Proof.
  unfold JS.includes. rewrite existsb_exists. split.
  - intros (y & Hy & Heq). apply String.eqb_eq in Heq. now subst.
  - intros H. exists x. split; [assumption | apply String.eqb_refl].
Qed.

Lemma includes_not_In arr x : JS.includes arr x = false <-> ~ In x arr.
Proof.
  rewrite <- includes_In. destruct (JS.includes arr x); split; congruence.
Qed.

(** ** The validator *)

(** The request is turned away: the response is written to the raw socket,
    which is then destroyed, and the handshake is not handed to [ws]. *)
Definition rejects (env : process_env) (req : request)
    (status : Z) (phrase body : string) : Prop :=
  snd (upgrade env req) = Rejected /\
  written (fst (upgrade env req)) = [Spec.http_response status phrase body] /\
  last (fst (upgrade env req)) = Some SocketDestroy /\
  ~ In HandleUpgrade (fst (upgrade env req)).

(** The request is handed to [ws] with the token and the address of its
    query string; nothing is written to the raw socket. *)
Definition accepts (env : process_env) (req : request) : Prop :=
  exists t u,
    query_token req = Some t /\ query_server req = Some u /\
    snd (upgrade env req) = Accepted t u /\
    written (fst (upgrade env req)) = [] /\
    last (fst (upgrade env req)) = Some HandleUpgrade.

Lemma log_no_upgrade env level message meta :
  ~ In HandleUpgrade (log env level message meta).
Proof.
  destruct (log_cases env level message meta) as [-> | ->]; simpl; intuition discriminate.
Qed.

Lemma reject_rejects pre warning status phrase body response :
  response = Spec.http_response status phrase body ->
  written pre = [] -> written warning = [] ->
  ~ In HandleUpgrade pre -> ~ In HandleUpgrade warning ->
  let r := reject pre warning response in
  snd r = Rejected /\ written (fst r) = [Spec.http_response status phrase body] /\
  last (fst r) = Some SocketDestroy /\ ~ In HandleUpgrade (fst r).
Proof.
  intros -> Hp Hw Hnp Hnw. unfold reject. simpl. repeat split.
  - rewrite !written_app, Hp, Hw. reflexivity.
  - rewrite !app_assoc.
    change [SocketWrite ?x; SocketDestroy] with ([SocketWrite x] ++ [SocketDestroy]).
    rewrite app_assoc. apply last_snoc.
  - rewrite !in_app_iff. simpl. intuition discriminate.
Qed.


Definition incoming_log (env : process_env) (req : request) : list action :=
  log env "info" "Incoming connection request"
    [("origin", JS.of_string (header_origin req));
     ("path", match pathname req with Some p => JS.Str p | None => JS.Null end);
     ("hasToken", JS.Bool (JS.truthy (query_token req)));
     ("hasServer", JS.Bool (JS.truthy (query_server req)))].

(** Once the three parameter rules pass, the verdict is the origin check. *)
Lemma parameter_rule_None env req :
  Spec.parameter_rule req = None ->
  exists t u,
    query_token req = Some t /\ t <> "" /\ query_server req = Some u /\
    upgrade env req =
      match ALLOWED_ORIGINS env with
      | Some allowed =>
          if JS.truthy (header_origin req)
             && (negb (JS.includes allowed (JS.or_empty (header_origin req)))
                 && negb (JS.includes allowed "*"))
          then reject (incoming_log env req)
                 (log env "warn" "Rejected: Origin not allowed"
                    [("origin", JS.of_string (header_origin req))])
                 ("HTTP/1.1 403 Forbidden" +:+ CRLF2 +:+ "Origin not allowed")
          else (incoming_log env req ++ [HandleUpgrade], Accepted t u)
      | None => (incoming_log env req ++ [HandleUpgrade], Accepted t u)
      end.
Proof.
  unfold Spec.parameter_rule, upgrade, incoming_log. intros H.
  destruct (query_token req) as [[|c t]|]; [discriminate | | discriminate].
  destruct (query_server req) as [[|d u]|]; [discriminate | | discriminate].
  exists (String c t), (String d u). repeat split; [discriminate|].
  cbn -[reject log String.prefix ALLOWED_ORIGINS JS.includes]. unfold JS.startsWith.
  destruct (String.prefix "ws://" (String d u)); [reflexivity|].
  destruct (String.prefix "wss://" (String d u)); [reflexivity | discriminate].
Qed.

Lemma accepted_accepts env req t u :
  query_token req = Some t -> query_server req = Some u ->
  upgrade env req = (incoming_log env req ++ [HandleUpgrade], Accepted t u) ->
  accepts env req.
Proof.
  intros Ht Hu E. exists t, u. rewrite E. simpl. repeat split; try assumption.
  - unfold incoming_log. now observe.
  - apply last_snoc.
Qed.

Lemma connects_upgrade env req : connects (fst (upgrade env req)) = [].
Proof.
  unfold upgrade, reject.
  repeat match goal with
         | |- context [if ?b then _ else _] => destruct b
         | |- context [match ?x with Some _ => _ | None => _ end] => destruct x
         end; simpl; now observe.
Qed.


Lemma serve_rejected lib env id now req :
  snd (upgrade env req) = Rejected ->
  serve lib env id now req = Result None (fst (upgrade env req)) Normal.
Proof.
  unfold serve. destruct (upgrade env req) as [acts [|t u]]; simpl; congruence.
Qed.


(** ** The handler on every request *)







(** ** The origin allow-list *)

Lemma origin_check_passes env req b :
  Spec.parameter_rule req = None ->
  match ALLOWED_ORIGINS env with
  | Some allowed =>
      JS.truthy (header_origin req)
      && (negb (JS.includes allowed (JS.or_empty (header_origin req)))
          && negb (JS.includes allowed "*")) = b
  | None => b = false
  end ->
  b = false -> accepts env req.
Proof.
  intros H Hb ->. destruct (parameter_rule_None env req H) as (t & u & Ht & _ & Hu & E).
  apply (accepted_accepts env req t u Ht Hu). rewrite E.
  destruct (ALLOWED_ORIGINS env); [now rewrite Hb | reflexivity].
Qed.

(** C6 (amended).  For a request that passes the parameter rules: when an
    allow-list is configured and the request carries a non-empty Origin that
    is not an entry of the list, and the list has no [*] entry, the request
    is rejected with 403 "Origin not allowed", no upstream connection is
    attempted and no session exists; when the origin is an entry or the list
    contains [*], the request proceeds; when the request carries no Origin
    header, or an empty one, the check is skipped and the request proceeds
    whatever the list; when no allow-list is configured every origin
    passes. *)
Theorem origin_allow_list lib env id now req :
  Spec.parameter_rule req = None ->
  (forall allowed o,
      ALLOWED_ORIGINS env = Some allowed -> header_origin req = Some o ->
      o <> "" -> ~ In o allowed -> ~ In "*" allowed ->
      rejects env req 403 "Forbidden" "Origin not allowed" /\
      connects (output (serve lib env id now req)) = [] /\
      state (serve lib env id now req) = None) /\
  (forall allowed o,
      ALLOWED_ORIGINS env = Some allowed -> header_origin req = Some o ->
      In o allowed \/ In "*" allowed -> accepts env req) /\
  (header_origin req = None \/ header_origin req = Some "" -> accepts env req) /\
  (ALLOWED_ORIGINS env = None -> accepts env req).
Proof.
  intros H. split; [|split; [|split]].
  - intros allowed o Ha Ho Hne Hn1 Hn2.
    destruct (parameter_rule_None env req H) as (t & u & _ & _ & _ & E).
    rewrite Ha, Ho in E. simpl JS.or_empty in E.
    apply truthy_Some in Hne. apply includes_not_In in Hn1, Hn2.
    rewrite Hne, Hn1, Hn2 in E. cbn [negb andb] in E.
    assert (R : rejects env req 403 "Forbidden" "Origin not allowed").
    { unfold rejects. rewrite E. apply reject_rejects;
        unfold incoming_log; auto using written_log, log_no_upgrade. }
    split; [exact R|]. destruct R as (V & _).
    rewrite (serve_rejected lib env id now req V). simpl.
    split; [apply connects_upgrade | reflexivity].
  - intros allowed o Ha Ho Hin. eapply (origin_check_passes env req); eauto.
    rewrite Ha, Ho. simpl JS.or_empty.
    destruct Hin as [Hin | Hin]; apply includes_In in Hin; rewrite Hin; simpl;
      [apply andb_false_r | rewrite andb_false_r; apply andb_false_r].
  - intros Ho. eapply (origin_check_passes env req); eauto.
    destruct (ALLOWED_ORIGINS env); [|reflexivity].
    destruct Ho as [-> | ->]; reflexivity.
  - intros Ha. eapply (origin_check_passes env req); eauto. now rewrite Ha.
Qed.

Lemma origin_allow_list_witness :
  rejects Example.env_a_com
    (Example.req (Some "t") (Some "ws://x") (Some "https://b.com") None)
    403 "Forbidden" "Origin not allowed" /\
  accepts Example.env_a_com
    (Example.req (Some "t") (Some "ws://x") (Some "https://a.com") None) /\
  accepts Example.env_a_com (Example.req (Some "t") (Some "ws://x") None None) /\
  accepts Example.env_open
    (Example.req (Some "t") (Some "ws://x") (Some "https://b.com") None).
Proof.
  split; [|split; [|split]].
  - refine (proj1 (proj1 (origin_allow_list Example.ws Example.env_a_com "c" 0
             (Example.req (Some "t") (Some "ws://x") (Some "https://b.com") None)
             eq_refl) ["https://a.com"] "https://b.com" eq_refl eq_refl _ _ _));
      [discriminate | simpl; intuition discriminate | simpl; intuition discriminate].
  - refine (proj1 (proj2 (origin_allow_list Example.ws Example.env_a_com "c" 0
             (Example.req (Some "t") (Some "ws://x") (Some "https://a.com") None)
             eq_refl)) ["https://a.com"] "https://a.com" eq_refl eq_refl _).
    left. simpl. auto.
  - refine (proj1 (proj2 (proj2 (origin_allow_list Example.ws Example.env_a_com "c" 0
             (Example.req (Some "t") (Some "ws://x") None None) eq_refl))) _).
    left. reflexivity.
  - exact (proj2 (proj2 (proj2 (origin_allow_list Example.ws Example.env_open "c" 0
             (Example.req (Some "t") (Some "ws://x") (Some "https://b.com") None)
             eq_refl))) eq_refl).
Defined.

(** C6 as first stated fails: with the allow-list ["https://a.com"], a
    request whose Origin header is present with an empty value, which is
    not an entry of the list, is accepted. *)
Lemma origin_allow_list_counterexample :
  let r := Example.req (Some "t") (Some "ws://x") (Some "") None in
  Spec.parameter_rule r = None /\
  ALLOWED_ORIGINS Example.env_a_com = Some ["https://a.com"] /\
  header_origin r = Some "" /\
  ~ In "" ["https://a.com"] /\ ~ In "*" ["https://a.com"] /\
  snd (upgrade Example.env_a_com r) = Accepted "t" "ws://x" /\
  written (fst (upgrade Example.env_a_com r)) = [].
Proof.
  cbv zeta. repeat apply conj; try reflexivity; simpl; intuition discriminate.
Qed.

(** ** The outbound handshake *)

Lemma upgrade_Accepted env req t u :
  snd (upgrade env req) = Accepted t u ->
  query_token req = Some t /\ query_server req = Some u /\ t <> "".
Proof.
  unfold upgrade, reject.
  destruct (query_token req) as [[|c t']|]; cbn -[log String.prefix ALLOWED_ORIGINS];
    try discriminate.
  destruct (query_server req) as [[|d u']|]; cbn -[log String.prefix ALLOWED_ORIGINS];
    try discriminate.
  repeat match goal with
         | |- context [if ?b then _ else _] => destruct b
         | |- context [match ALLOWED_ORIGINS env with Some _ => _ | None => _ end] =>
             destruct (ALLOWED_ORIGINS env)
         end; cbn -[log]; intros [= <- <-] || discriminate; repeat split; discriminate.
Qed.

Lemma connects_connection lib env id now req t u :
  connects (output (connection lib env id now req t u)) = [(u, upstream_headers t req)].
Proof.
  unfold connection. destruct (ctor_error lib u (upstream_headers t req)); simpl; now observe.
Qed.






(** ** Token masking *)

Lemma length_append (a b : string) :
  String.length (a +:+ b) = String.length a + String.length b.
Proof. induction a as [|c a IH]; simpl; [reflexivity | now rewrite IH]. Qed.

Lemma length_substring (n m : nat) (s : string) :
  n + m <= String.length s -> String.length (String.substring n m s) = m.
Proof.
  revert n m. induction s as [|c s IH]; intros [|n] [|m]; simpl; intros H;
    try reflexivity; try lia.
  - rewrite (IH 0 m); [reflexivity | simpl; lia].
  - apply (IH n 0). lia.
  - apply (IH n (S m)). lia.
Qed.

Lemma maskToken_masked t : maskToken t = Spec.masked t.
Proof.
  unfold maskToken, Spec.masked, JS.substring2, JS.substring1.
  destruct (Nat.leb_spec (String.length t) 8) as [Hle | Hgt].
  - now rewrite orb_true_r.
  - rewrite orb_false_r.
    destruct t as [|c t]; [simpl in Hgt; lia|]. cbn [JS.truthy String.eqb negb].
    replace (String.length (String c t) - (String.length (String c t) - 4)) with 4 by lia.
    reflexivity.
Qed.

Lemma masked_fixed_point t :
  Spec.masked t = t <->
  t = "****" \/ (String.length t = 11 /\ String.substring 4 3 t = "...").
Proof.
  unfold Spec.masked. destruct (Nat.leb_spec (String.length t) 8) as [Hle | Hgt].
  - split; [auto | intros [-> | [H _]]; [reflexivity | lia]].
  - assert (L : String.length (String.substring 0 4 t +:+ "..."
                   +:+ String.substring (String.length t - 4) 4 t) = 11).
    { rewrite !length_append, !length_substring by lia. reflexivity. }
    split.
    + intros E. right. rewrite E in L. split; [exact L|].
      clear Hgt. do 11 (destruct t as [|? t]; [simpl in L; lia|]).
      destruct t; [|simpl in L; lia]. simpl in E. injection E as -> -> ->. reflexivity.
    + intros [-> | [H11 Hdots]]; [simpl in Hgt; lia|].
      clear Hgt L. do 11 (destruct t as [|? t]; [simpl in H11; lia|]).
      destruct t; [|simpl in H11; lia]. simpl in Hdots |- *.
      injection Hdots as -> -> ->. reflexivity.
Qed.

Lemma upgrade_with_token env req t t' :
  t <> "" -> t' <> "" ->
  fst (upgrade env (with_token t req)) = fst (upgrade env (with_token t' req)) /\
  (snd (upgrade env (with_token t req)) = Rejected /\
   snd (upgrade env (with_token t' req)) = Rejected
   \/ exists u, snd (upgrade env (with_token t req)) = Accepted t u /\
                snd (upgrade env (with_token t' req)) = Accepted t' u).
Proof.
  intros Ht Ht'. apply truthy_Some in Ht, Ht'. unfold upgrade, reject.
  cbn [query_token query_server header_origin pathname with_token]. rewrite Ht, Ht'.
  cbn [negb JS.or_empty].
  repeat match goal with
         | |- context [if ?b then _ else _] => destruct b
         | |- context [match ALLOWED_ORIGINS env with Some _ => _ | None => _ end] =>
             destruct (ALLOWED_ORIGINS env)
         end; cbn [fst snd]; (split; [reflexivity|]); eauto.
Qed.

Lemma logs_connection lib env id now req req' t t' u :
  maskToken t = maskToken t' ->
  ctor_error lib u (upstream_headers t req) = ctor_error lib u (upstream_headers t' req') ->
  logs (output (connection lib env id now req t u))
    = logs (output (connection lib env id now req' t' u)) /\
  state (connection lib env id now req t u) = state (connection lib env id now req' t' u).
Proof.
  intros Hm Hc. unfold connection. rewrite Hm, Hc.
  destruct (ctor_error lib u (upstream_headers t' req')); simpl; split;
    try reflexivity; now observe.
Qed.

(** C9 (amended).  The log depends on the token only through its masked
    form: two requests that differ only in their (non-empty) tokens, the
    tokens having the same masked form, produce the same log lines and the
    same session, provided the library treats them alike.  The masked form
    is "****" for a token of at most eight characters and otherwise the
    first four characters, "...", and the last four.  It differs from the
    token except in two cases, where the log shows the token in full: the
    token is the literal "****", or it has eleven characters of which the
    fifth to seventh are "...". *)
Theorem token_masking lib env id now req t1 t2 :
  t1 <> "" -> t2 <> "" ->
  maskToken t1 = maskToken t2 ->
  handshake_completes lib (with_token t1 req) = handshake_completes lib (with_token t2 req) ->
  (forall u, ctor_error lib u (upstream_headers t1 req)
             = ctor_error lib u (upstream_headers t2 req)) ->
  logs (output (serve lib env id now (with_token t1 req)))
    = logs (output (serve lib env id now (with_token t2 req))) /\
  state (serve lib env id now (with_token t1 req))
    = state (serve lib env id now (with_token t2 req)) /\
  maskToken t1 = Spec.masked t1 /\
  (maskToken t1 = t1 <->
   t1 = "****" \/ (String.length t1 = 11 /\ String.substring 4 3 t1 = "...")).
Proof.
  intros H1 H2 Hm Hh Hc.
  assert (G : logs (output (serve lib env id now (with_token t1 req)))
              = logs (output (serve lib env id now (with_token t2 req))) /\
              state (serve lib env id now (with_token t1 req))
              = state (serve lib env id now (with_token t2 req))).
  { destruct (upgrade_with_token env req t1 t2 H1 H2) as (Ef & [[R1 R2] | (u & A1 & A2)]).
    - rewrite !serve_rejected by assumption. simpl. now rewrite Ef.
    - unfold serve. rewrite <- Hh.
      destruct (upgrade env (with_token t1 req)) as [a1 v1],
               (upgrade env (with_token t2 req)) as [a2 v2].
      simpl in Ef, A1, A2. subst.
      destruct (handshake_completes lib (with_token t1 req)); [|now split].
      cbn [output state]. rewrite !logs_app.
      destruct (logs_connection lib env id now (with_token t1 req) (with_token t2 req)
                  t1 t2 u Hm (Hc u)) as [-> ->]. now split. }
  destruct G as [G1 G2]. repeat split; try assumption.
  - apply maskToken_masked.
  - rewrite maskToken_masked. apply masked_fixed_point.
  - rewrite maskToken_masked. apply masked_fixed_point.
Qed.

Lemma token_masking_witness :
  logs (output (serve Example.ws Example.env_open "c" 0
                  (with_token "secret-token-0001" Example.good)))
    = logs (output (serve Example.ws Example.env_open "c" 0
                      (with_token "secr-another-one-0001" Example.good))) /\
  maskToken "secret-token-0001" = "secr...0001".
Proof.
  pose proof (token_masking Example.ws Example.env_open "c" 0 Example.good
                "secret-token-0001" "secr-another-one-0001") as T.
  destruct T as (L & _ & M & _);
    [discriminate | discriminate | reflexivity | reflexivity | reflexivity |].
  split; [exact L | rewrite M; reflexivity].
Defined.

(** C9 as first stated fails: the masked form of the token "****" is the
    token, and so is that of "abcd...wxyz", which the connection log then
    shows in full. *)
Lemma token_masking_counterexample :
  maskToken "****" = "****" /\
  maskToken "abcd...wxyz" = "abcd...wxyz" /\
  In (Log "info" "Client connected"
        [("clientId", JS.Str "c"); ("server", JS.Str "wss://broker.example/");
         ("token", JS.Str "abcd...wxyz")])
     (output (serve Example.ws Example.env_open "c" 0
                (with_token "abcd...wxyz" Example.good))).
Proof. repeat apply conj; try reflexivity. vm_compute. auto. Qed.

(** ** Steps and runs *)

Lemma run_cons lib env s e evs s' acts :
  run lib env s (e :: evs) = Some (s', acts) ->
  exists s1 o1 acts',
    step lib env s e = Some (Result s1 o1 Normal) /\
    run lib env s1 evs = Some (s', acts') /\ acts = o1 ++ acts'.
Proof.
  simpl. destruct (step lib env s e) as [[s1 o1 [|m]]|]; try discriminate.
  destruct (run lib env s1 evs) as [[s2 o2]|] eqn:Hr; try discriminate.
  intros [= <- <-]. exists s1, o1, o2. auto.
Qed.

Lemma run_app lib env s evs1 evs2 s' acts :
  run lib env s (evs1 ++ evs2) = Some (s', acts) ->
  exists s1 a1 a2,
    run lib env s evs1 = Some (s1, a1) /\
    run lib env s1 evs2 = Some (s', a2) /\ acts = a1 ++ a2.
Proof.
  revert s acts. induction evs1 as [|e evs1 IH]; intros s acts H.
  - exists s, [], acts. auto.
  - rewrite <- app_comm_cons in H. apply run_cons in H as (s1 & o1 & acts' & Hs & Hr & ->).
    apply IH in Hr as (s2 & a1 & a2 & Hr1 & Hr2 & ->).
    exists s2, (o1 ++ a1), a2. simpl. rewrite Hs, Hr1. rewrite app_assoc. auto.
Qed.

#[global] Arguments JS.show : simpl never.
#[global] Arguments log : simpl never.
#[global] Arguments bytes : simpl never.
#[global] Arguments closed_meta : simpl never.
#[global] Arguments caught : simpl never.
#[global] Arguments thrown : simpl never.

(** Case analysis on an enabled step: the event, the two ready states,
    the latch and the buffer. *)
Ltac step_inv H :=
  match type of H with
  | step _ _ ?s ?e = Some _ =>
      destruct s as [? ? [] [[]|] [] [|? ?]];
      destruct e as [| | | | | | |[]];
      unfold step, on_upstream_open, on_upstream_message, on_client_message,
        on_upstream_error, on_upstream_close, on_client_close, on_client_error in H;
      simpl in H; try discriminate H; injection H as <-; simpl in *
  end.

Lemma step_connects lib env s e r :
  step lib env s e = Some r -> connects (output r) = [].
Proof. intros H. step_inv H; now observe. Qed.

Lemma step_upstream_present lib env s e r :
  step lib env s e = Some r -> upstreamWs s <> None -> upstreamWs (state r) <> None.
Proof. intros H. step_inv H; congruence. Qed.

Lemma step_latched lib env s e r :
  isClosing s = true -> step lib env s e = Some r ->
  isClosing (state r) = true /\ closes (output r) = [] /\ outcome r = Normal.
Proof. intros L H. step_inv H; try congruence; repeat split; auto; now observe. Qed.

Lemma step_not_trigger lib env s e r :
  is_close_trigger e = false -> step lib env s e = Some r ->
  isClosing (state r) = isClosing s /\ closes (output r) = [].
Proof. intros T H. step_inv H; try discriminate T; split; auto; now observe. Qed.

Lemma step_trigger lib env s e r :
  is_close_trigger e = true -> upstreamWs s <> None -> isClosing s = false ->
  step lib env s e = Some r ->
  isClosing (state r) = true /\
  exists c, Spec.close_of_trigger e = Some c /\ closes (output r) = [c].
Proof.
  intros T U L H. step_inv H; try discriminate T; try congruence;
    (split; [reflexivity|]); eexists; (split; [reflexivity|]); observe;
    repeat match goal with
           | |- context [JS.or_1000 ?c] => is_var c; destruct c as [[]|]
           | |- context [JS.or_empty ?c] => is_var c; destruct c
           end; reflexivity.
Qed.

Lemma initial_fresh lib env s0 :
  initial lib env s0 ->
  upstreamWs s0 = Some CONNECTING /\ clientWs s0 = OPEN /\
  isClosing s0 = false /\ messageBuffer s0 = [].
Proof.
  intros (id & now & req & t & u & H). unfold connection in H.
  destruct (ctor_error lib u _); simpl in H; [discriminate|].
  injection H as <-. auto.
Qed.

Lemma run_upstream_present lib env s evs s' acts :
  run lib env s evs = Some (s', acts) -> upstreamWs s <> None -> upstreamWs s' <> None.
Proof.
  revert s acts. induction evs as [|e evs IH]; intros s acts H U.
  - injection H as <- _. exact U.
  - apply run_cons in H as (s1 & o1 & acts' & Hs & Hr & ->).
    eapply IH; [exact Hr|]. exact (step_upstream_present _ _ _ _ _ Hs U).
Qed.

Lemma reachable_upstream_present lib env s :
  reachable lib env s -> upstreamWs s <> None.
Proof.
  intros (s0 & evs & acts & I & R). eapply run_upstream_present; [exact R|].
  destruct (initial_fresh _ _ _ I) as (-> & _). discriminate.
Qed.

Lemma run_latched lib env s evs s' acts :
  isClosing s = true -> run lib env s evs = Some (s', acts) ->
  isClosing s' = true /\ closes acts = [].
Proof.
  revert s acts. induction evs as [|e evs IH]; intros s acts L H.
  - injection H as <- <-. auto.
  - apply run_cons in H as (s1 & o1 & acts' & Hs & Hr & ->).
    destruct (step_latched _ _ _ _ _ L Hs) as (L1 & C1 & _). simpl in L1, C1.
    destruct (IH _ _ L1 Hr) as (L2 & C2). rewrite closes_app, C1, C2. auto.
Qed.

Lemma run_no_trigger lib env s evs s' acts :
  existsb is_close_trigger evs = false -> run lib env s evs = Some (s', acts) ->
  isClosing s' = isClosing s /\ closes acts = [].
Proof.
  revert s acts. induction evs as [|e evs IH]; intros s acts T H.
  - injection H as <- <-. auto.
  - simpl in T. apply orb_false_elim in T as [Te Tr].
    apply run_cons in H as (s1 & o1 & acts' & Hs & Hr & ->).
    destruct (step_not_trigger _ _ _ _ _ Te Hs) as (L1 & C1). simpl in L1, C1.
    destruct (IH _ _ Tr Hr) as (L2 & C2). rewrite closes_app, C1, C2, L2, L1. auto.
Qed.

(** ** One-shot close propagation *)

(** C1.  In every session, the first close-trigger (upstream error,
    upstream close, client error, client close) finds the latch false and
    no close call made so far; handling it sets the latch and makes exactly
    one close call, on the opposite leg: with the trigger's code (1000 when
    it is absent or zero) and reason (empty when absent) for a close, with
    1011 for an error.  Whatever arrives afterwards makes no close call:
    once the latch is set every handler leaves it set and closes nothing. *)
Theorem one_shot_close_propagation lib env s0 pre s1 a1 e r :
  initial lib env s0 ->
  run lib env s0 pre = Some (s1, a1) ->
  existsb is_close_trigger pre = false ->
  is_close_trigger e = true ->
  step lib env s1 e = Some r ->
  isClosing s1 = false /\ closes a1 = [] /\
  isClosing (state r) = true /\
  (exists c, Spec.close_of_trigger e = Some c /\ closes (output r) = [c]) /\
  (forall post s2 a2,
      run lib env (state r) post = Some (s2, a2) ->
      isClosing s2 = true /\ closes a2 = []) /\
  (forall s e' r',
      isClosing s = true -> step lib env s e' = Some r' ->
      isClosing (state r') = true /\ closes (output r') = []).
Proof.
  intros I R T Te S.
  destruct (initial_fresh _ _ _ I) as (U0 & _ & L0 & _).
  destruct (run_no_trigger _ _ _ _ _ _ T R) as (L1 & C1). rewrite L0 in L1.
  assert (U1 : upstreamWs s1 <> None).
  { eapply run_upstream_present; [exact R|]. rewrite U0. discriminate. }
  destruct (step_trigger _ _ _ _ _ Te U1 L1 S) as (L2 & c & Hc & Hcl).
  repeat split; auto.
  - exists c. auto.
  - eapply run_latched; eauto.
  - eapply run_latched; eauto.
  - eapply step_latched; eauto.
  - eapply step_latched; eauto.
Qed.

Lemma one_shot_close_propagation_witness :
  exists r,
    step Example.ws Example.env_open
      (Session "client-1-abc" 100 OPEN (Some OPEN) false [])
      (UpstreamClose 105 (Some 1000%Z) (Some "done")) = Some r /\
    closes (output r) = [(Client, 1000%Z, "done")] /\
    forall s2 a2,
      run Example.ws Example.env_open (state r) [ClientError "late"] = Some (s2, a2) ->
      closes a2 = [].
Proof.
  exists (on_upstream_close Example.ws Example.env_open
            (Session "client-1-abc" 100 OPEN (Some CLOSED) false [])
            105 (Some 1000%Z) (Some "done")).
  split; [reflexivity|].
  destruct (one_shot_close_propagation Example.ws Example.env_open Example.s0
              [UpstreamOpen] (Session "client-1-abc" 100 OPEN (Some OPEN) false [])
              (output (on_upstream_open Example.env_open
                         (Session "client-1-abc" 100 OPEN (Some OPEN) false [])))
              (UpstreamClose 105 (Some 1000%Z) (Some "done"))
              (on_upstream_close Example.ws Example.env_open
                 (Session "client-1-abc" 100 OPEN (Some CLOSED) false [])
                 105 (Some 1000%Z) (Some "done")))
    as (_ & _ & _ & (c & Hc & Hcl) & Hpost & _).
  - exists "client-1-abc", 100%Z, Example.good, "t", "ws://x". reflexivity.
  - reflexivity.
  - reflexivity.
  - reflexivity.
  - reflexivity.
  - split.
    + rewrite Hcl. injection Hc as <-. reflexivity.
    + intros s2 a2 H. exact (proj2 (Hpost _ _ _ H)).
Defined.

(** ** Error mapping *)

(** C7.  Given that the library's [close] accepts code 1011 with a reason
    of at most 123 bytes: an upstream error met with the latch false closes
    the client leg with 1011 "Upstream connection error"; a client error met
    with the latch false closes the upstream leg with 1011 "Client
    connection error"; a constructor that throws leaves no session and
    closes the client leg with 1011 "Failed to connect to upstream server",
    after a single connection attempt.  In each case the handler returns
    normally (no exception escapes to crash the process), and no handler of
    a session ever constructs another upstream WebSocket. *)
Theorem error_mapping lib env :
  (forall rs reason, String.length reason <= 123 ->
                     close_error lib rs 1011 reason = None) ->
  (forall s message r,
      isClosing s = false -> step lib env s (UpstreamError message) = Some r ->
      closes (output r) = [(Client, 1011%Z, "Upstream connection error")] /\
      isClosing (state r) = true /\ outcome r = Normal) /\
  (forall s message r,
      reachable lib env s -> isClosing s = false ->
      step lib env s (ClientError message) = Some r ->
      closes (output r) = [(Upstream, 1011%Z, "Client connection error")] /\
      isClosing (state r) = true /\ outcome r = Normal) /\
  (forall id now req t u message,
      ctor_error lib u (upstream_headers t req) = Some message ->
      let r := connection lib env id now req t u in
      closes (output r) = [(Client, 1011%Z, "Failed to connect to upstream server")] /\
      connects (output r) = [(u, upstream_headers t req)] /\
      state r = None /\ outcome r = Normal) /\
  (forall s e r, step lib env s e = Some r -> connects (output r) = []).
Proof.
  intros Hlib. split; [|split; [|split]].
  - intros s message r L S. unfold step in S.
    destruct (upstreamWs s) as [[]|]; try discriminate S; injection S as <-;
      unfold on_upstream_error; simpl; rewrite L; simpl;
      rewrite closes_app, closes_log, Hlib by (simpl; lia); auto.
  - intros s message r Hr L S. apply reachable_upstream_present in Hr.
    unfold step in S.
    destruct (clientWs s); try discriminate S; injection S as <-;
      unfold on_client_error; simpl; destruct (upstreamWs s); try congruence;
      rewrite L; simpl; rewrite closes_app, closes_log, Hlib by (simpl; lia); auto.
  - intros id now req t u message Hc. cbv zeta. unfold connection. rewrite Hc. simpl.
    rewrite Hlib by (simpl; lia). repeat split; now observe.
  - apply step_connects.
Qed.

Lemma example_close_1011 rs reason :
  String.length reason <= 123 -> close_error Example.ws rs 1011 reason = None.
Proof.
  intros H. destruct rs; simpl; try reflexivity.
  destruct (Nat.ltb_spec 123 (String.length reason)); [lia | reflexivity].
Qed.

Lemma error_mapping_witness :
  closes (output (on_upstream_error Example.ws Example.env_open
                    (Session "c" 0 OPEN (Some CLOSING) false []) "ECONNRESET"))
    = [(Client, 1011%Z, "Upstream connection error")] /\
  outcome (connection Example.ws_throwing Example.env_open "c" 0 Example.good
             "t" "ws://") = Normal.
Proof.
  split.
  - refine (proj1 (proj1 (error_mapping Example.ws Example.env_open example_close_1011)
                     (Session "c" 0 OPEN (Some OPEN) false []) "ECONNRESET" _
                     eq_refl eq_refl)).
  - refine (proj2 (proj2 (proj2 (proj1 (proj2 (proj2
             (error_mapping Example.ws_throwing Example.env_open example_close_1011)))
             "c" 0%Z Example.good "t" "ws://" _ eq_refl)))).
Defined.

(** ** Upstream to client *)

(** C8.  A frame that arrives from upstream while the client leg is not
    open is dropped: the handler does nothing at all (no send, no log, no
    close), returns normally and leaves the session, its buffer included,
    as it was.  A frame that arrives while the client leg is open is sent to
    the client as it is, payload and binary flag, and nothing is sent
    upstream or buffered. *)
Theorem lossy_upstream_to_client lib env s f :
  upstreamWs s = Some OPEN \/ upstreamWs s = Some CLOSING ->
  exists r,
    step lib env s (UpstreamMessage f) = Some r /\
    state r = s /\ outcome r = Normal /\
    closes (output r) = [] /\ sends Upstream (output r) = [] /\
    (clientWs s <> OPEN -> output r = []) /\
    (clientWs s = OPEN -> sends Client (output r) = [f]).
Proof.
  intros H. exists (on_upstream_message env s f). split.
  - unfold step. destruct H as [-> | ->]; reflexivity.
  - unfold on_upstream_message. destruct (clientWs s); simpl;
      repeat split; try congruence; intros; now observe.
Qed.

Lemma lossy_upstream_to_client_witness :
  exists r,
    step Example.ws Example.env_open
      (Session "c" 0 CLOSING (Some OPEN) true []) (UpstreamMessage Example.D) = Some r /\
    output r = [] /\ state r = Session "c" 0 CLOSING (Some OPEN) true [].
Proof.
  destruct (lossy_upstream_to_client Example.ws Example.env_open
              (Session "c" 0 CLOSING (Some OPEN) true []) Example.D
              (or_introl eq_refl)) as (r & Hs & Hst & _ & _ & _ & Hd & _).
  exists r. split; [exact Hs|]. split; [apply Hd; discriminate | exact Hst].
Defined.

(** ** Buffering and relaying, client to upstream *)

Definition upstream_is_open (s : session) : bool :=
  match upstreamWs s with
  | Some OPEN => true
  | _ => false
  end.

Definition is_upstream_open (e : event) : bool :=
  match e with
  | UpstreamOpen => true
  | _ => false
  end.

(** What one step does to the upstream leg, to the buffer and to what is
    sent upstream. *)
Lemma step_relay lib env s e r :
  step lib env s e = Some r ->
  match e with
  | UpstreamOpen =>
      upstreamWs s = Some CONNECTING /\ upstreamWs (state r) = Some OPEN /\
      sends Upstream (output r) = messageBuffer s /\ messageBuffer (state r) = []
  | ClientMessage f =>
      upstreamWs (state r) = upstreamWs s /\
      if upstream_is_open s
      then sends Upstream (output r) = [f] /\ messageBuffer (state r) = messageBuffer s
      else sends Upstream (output r) = [] /\ messageBuffer (state r) = messageBuffer s ++ [f]
  | _ =>
      sends Upstream (output r) = [] /\ messageBuffer (state r) = messageBuffer s /\
      (upstreamWs (state r) = Some OPEN -> upstreamWs s = Some OPEN) /\
      (upstreamWs (state r) = Some CONNECTING -> upstreamWs s = Some CONNECTING) /\
      (keeps_upstream_open e = true -> upstreamWs (state r) = upstreamWs s)
  end.
Proof.
  intros H. step_inv H; unfold upstream_is_open; simpl;
    repeat split; try discriminate; try reflexivity;
    rewrite ?sends_app, ?sends_cons_Close, ?sends_cons_Send_Client, ?sends_cons_Send,
      ?sends_log, ?sends_caught, ?sends_map_Send;
    reflexivity.
Qed.

Lemma client_frames_cons e evs :
  client_frames (e :: evs) = client_frames [e] ++ client_frames evs.
Proof. unfold client_frames. simpl. destruct e; reflexivity. Qed.

(** Before the upstream leg opens nothing is sent upstream and every
    client frame is appended to the buffer, in arrival order. *)
Lemma run_connecting lib env s evs s' acts :
  run lib env s evs = Some (s', acts) ->
  upstreamWs s' = Some CONNECTING ->
  upstreamWs s = Some CONNECTING /\ sends Upstream acts = [] /\
  messageBuffer s' = messageBuffer s ++ client_frames evs /\
  existsb is_upstream_open evs = false.
Proof.
  revert s acts. induction evs as [|e evs IH]; intros s acts H U.
  - injection H as <- <-. rewrite app_nil_r. auto.
  - apply run_cons in H as (s1 & o1 & acts' & Hs & Hr & ->).
    destruct (IH _ _ Hr U) as (U1 & S1 & B1 & O1).
    apply step_relay in Hs. simpl in Hs. rewrite client_frames_cons, sends_app, S1, B1.
    destruct e; simpl.
    + destruct Hs as (_ & Hs & _). congruence.
    + destruct Hs as (-> & -> & _ & Hc & _). rewrite app_nil_r. auto.
    + destruct Hs as (E & Hs). rewrite E in U1. unfold upstream_is_open in Hs.
      rewrite U1 in Hs. destruct Hs as (-> & ->). rewrite <- app_assoc. auto.
    + destruct Hs as (-> & -> & _ & Hc & _). rewrite app_nil_r. auto.
    + destruct Hs as (-> & -> & _ & Hc & _). rewrite app_nil_r. auto.
    + destruct Hs as (-> & -> & _ & Hc & _). rewrite app_nil_r. auto.
    + destruct Hs as (-> & -> & _ & Hc & _). rewrite app_nil_r. auto.
    + destruct Hs as (-> & -> & _ & Hc & _). rewrite app_nil_r. auto.
Qed.

(** Once the upstream leg has left the connecting state it never opens
    (again), and what is sent upstream is a subsequence of the client's
    frames. *)
Lemma run_connected lib env s evs s' acts :
  run lib env s evs = Some (s', acts) ->
  upstreamWs s <> Some CONNECTING ->
  upstreamWs s' <> Some CONNECTING /\
  sends Upstream acts `sublist_of` client_frames evs /\
  existsb is_upstream_open evs = false.
Proof.
  revert s acts. induction evs as [|e evs IH]; intros s acts H U.
  - injection H as <- <-. repeat split; [exact U | constructor].
  - apply run_cons in H as (s1 & o1 & acts' & Hs & Hr & ->).
    apply step_relay in Hs. simpl in Hs.
    assert (U1 : upstreamWs s1 <> Some CONNECTING /\
                 sends Upstream o1 `sublist_of` client_frames [e] /\
                 is_upstream_open e = false).
    { destruct e; simpl.
      - destruct Hs as (Hs & _). congruence.
      - destruct Hs as (-> & _ & _ & Hc & _). repeat split; auto.
      - destruct Hs as (E & Hs). rewrite E. split; [exact U|]. split; [|reflexivity].
        destruct (upstream_is_open s); destruct Hs as (-> & _);
          [reflexivity | apply sublist_nil_l].
      - destruct Hs as (-> & _ & _ & Hc & _). repeat split; auto.
      - destruct Hs as (-> & _ & _ & Hc & _). repeat split; auto.
      - destruct Hs as (-> & _ & _ & Hc & _). repeat split; auto.
      - destruct Hs as (-> & _ & _ & Hc & _). repeat split; auto.
      - destruct Hs as (-> & _ & _ & Hc & _). repeat split; auto. }
    destruct U1 as (U1 & Sub1 & O1). destruct (IH _ _ Hr U1) as (U2 & Sub2 & O2).
    rewrite client_frames_cons, sends_app. simpl. rewrite O1, O2.
    repeat split; [exact U2 | now apply sublist_app].
Qed.

(** While the upstream leg stays open every client frame is sent upstream
    on arrival and the buffer stays empty. *)
Lemma run_open lib env s evs s' acts :
  run lib env s evs = Some (s', acts) ->
  upstreamWs s = Some OPEN ->
  forallb keeps_upstream_open evs = true ->
  upstreamWs s' = Some OPEN /\ sends Upstream acts = client_frames evs /\
  messageBuffer s' = messageBuffer s.
Proof.
  revert s acts. induction evs as [|e evs IH]; intros s acts H U K.
  - injection H as <- <-. auto.
  - simpl in K. apply andb_true_iff in K as [Ke Kr].
    apply run_cons in H as (s1 & o1 & acts' & Hs & Hr & ->).
    apply step_relay in Hs. simpl in Hs.
    assert (U1 : upstreamWs s1 = Some OPEN /\ sends Upstream o1 = client_frames [e] /\
                 messageBuffer s1 = messageBuffer s).
    { destruct e; try discriminate Ke; simpl.
      - destruct Hs as (-> & -> & _ & _ & E). rewrite E by reflexivity. auto.
      - destruct Hs as (E & Hs). unfold upstream_is_open in Hs. rewrite U in Hs.
        destruct Hs as (-> & ->). rewrite E. auto.
      - destruct Hs as (-> & -> & _ & _ & E). rewrite E by exact Ke. auto. }
    destruct U1 as (U1 & S1 & B1). destruct (IH _ _ Hr U1 Kr) as (U2 & S2 & B2).
    rewrite client_frames_cons, sends_app, S1, S2, B2, B1. auto.
Qed.

Lemma example_initial : initial Example.ws Example.env_open Example.s0.
Proof. exists "client-1-abc", 100%Z, Example.good, "t", "ws://x". reflexivity. Qed.

(** C2.  In every session whose upstream leg opens, the frames the client
    sent before the opening are buffered, nothing being sent upstream
    meanwhile; what upstream receives over the whole run is exactly those
    frames, in arrival order and each with its binary/text marking, followed
    by frames the client sent after the opening, in their arrival order;
    as long as the upstream leg stays open these are all of the client's
    later frames. *)
Theorem ordering_guarantee lib env s0 pre post s acts :
  initial lib env s0 ->
  run lib env s0 (pre ++ UpstreamOpen :: post) = Some (s, acts) ->
  (exists s1 a1,
      run lib env s0 pre = Some (s1, a1) /\
      sends Upstream a1 = [] /\ messageBuffer s1 = client_frames pre) /\
  exists delivered,
    sends Upstream acts = client_frames pre ++ delivered /\
    delivered `sublist_of` client_frames post /\
    (forallb keeps_upstream_open post = true -> delivered = client_frames post).
Proof.
  intros I R. destruct (initial_fresh _ _ _ I) as (_ & _ & _ & B0).
  apply run_app in R as (s1 & a1 & a2 & R1 & R2 & ->).
  apply run_cons in R2 as (s2 & o2 & a3 & S & R3 & ->).
  apply step_relay in S. simpl in S. destruct S as (U1 & U2 & S2 & B2).
  destruct (run_connecting _ _ _ _ _ _ R1 U1) as (_ & S1 & B1 & _).
  rewrite B0 in B1. simpl in B1.
  split; [exists s1, a1; auto|].
  exists (sends Upstream a3). rewrite !sends_app, S1, S2, B1. split; [reflexivity|].
  split.
  - eapply run_connected; [exact R3|]. rewrite U2. discriminate.
  - intros K. eapply run_open; eauto.
Qed.

Lemma ordering_guarantee_witness :
  exists s acts,
    run Example.ws Example.env_open Example.s0
      ([ClientMessage Example.A; ClientMessage Example.B; ClientMessage Example.C]
         ++ UpstreamOpen :: [ClientMessage Example.D]) = Some (s, acts) /\
    sends Upstream acts = [Example.A; Example.B; Example.C; Example.D].
Proof.
  destruct (run Example.ws Example.env_open Example.s0
              ([ClientMessage Example.A; ClientMessage Example.B; ClientMessage Example.C]
                 ++ UpstreamOpen :: [ClientMessage Example.D]))
    as [[s acts]|] eqn:R; [|discriminate R].
  exists s, acts. split; [reflexivity|].
  destruct (ordering_guarantee Example.ws Example.env_open Example.s0
              [ClientMessage Example.A; ClientMessage Example.B; ClientMessage Example.C]
              [ClientMessage Example.D] s acts example_initial R) as (_ & d & Hs & _ & Hd).
  rewrite Hs, Hd by reflexivity. reflexivity.
Defined.

(** ** The buffer *)

Lemma existsb_false_filter {A} (p : A -> bool) (l : list A) :
  existsb p l = false -> List.filter p l = [].
Proof.
  induction l as [|x l IH]; simpl; [reflexivity|].
  intros H. apply orb_false_elim in H as [-> H]. auto.
Qed.

Lemma run_opens_once lib env s evs s' acts :
  run lib env s evs = Some (s', acts) ->
  length (List.filter is_upstream_open evs) <= 1.
Proof.
  revert s acts. induction evs as [|e evs IH]; intros s acts H; simpl; [lia|].
  apply run_cons in H as (s1 & o1 & acts' & Hs & Hr & ->).
  destruct (is_upstream_open e) eqn:E; [|eauto].
  destruct e; try discriminate E. apply step_relay in Hs. simpl in Hs.
  destruct Hs as (_ & U & _).
  destruct (run_connected _ _ _ _ _ _ Hr) as (_ & _ & O); [rewrite U; discriminate|].
  rewrite (existsb_false_filter _ _ O). simpl. lia.
Qed.

Lemma run_buffer_empty lib env s evs s' acts :
  run lib env s evs = Some (s', acts) ->
  (upstreamWs s = Some OPEN -> messageBuffer s = []) ->
  upstreamWs s' = Some OPEN -> messageBuffer s' = [].
Proof.
  revert s acts. induction evs as [|e evs IH]; intros s acts H Inv.
  - injection H as <- <-. exact Inv.
  - apply run_cons in H as (s1 & o1 & acts' & Hs & Hr & ->).
    apply (IH _ _ Hr). apply step_relay in Hs. simpl in Hs. destruct e.
    + destruct Hs as (_ & _ & _ & B). auto.
    + destruct Hs as (_ & -> & O & _). auto.
    + destruct Hs as (-> & Hs). intros U. unfold upstream_is_open in Hs.
      rewrite U in Hs. destruct Hs as (_ & ->). auto.
    + destruct Hs as (_ & -> & O & _). auto.
    + destruct Hs as (_ & -> & O & _). auto.
    + destruct Hs as (_ & -> & O & _). auto.
    + destruct Hs as (_ & -> & O & _). auto.
    + destruct Hs as (_ & -> & O & _). auto.
Qed.

(** C4 (amended).  In every session the buffer is non-empty only while the
    upstream leg is not open.  The upstream leg opens at most once; at that
    moment the buffered frames are sent upstream in order and the buffer is
    emptied.  A client frame is appended to the buffer exactly when it
    arrives while the upstream leg is not open; while the upstream leg is
    open no frame is appended and each frame goes straight upstream. *)
Theorem buffer_invariant lib env s0 evs s acts :
  initial lib env s0 ->
  run lib env s0 evs = Some (s, acts) ->
  (upstreamWs s = Some OPEN -> messageBuffer s = []) /\
  length (List.filter is_upstream_open evs) <= 1 /\
  (forall r, step lib env s UpstreamOpen = Some r ->
             sends Upstream (output r) = messageBuffer s /\
             messageBuffer (state r) = [] /\ upstreamWs (state r) = Some OPEN) /\
  (forall f r, step lib env s (ClientMessage f) = Some r ->
               if upstream_is_open s
               then sends Upstream (output r) = [f] /\ messageBuffer (state r) = []
               else sends Upstream (output r) = [] /\
                    messageBuffer (state r) = messageBuffer s ++ [f]).
Proof.
  intros I R. destruct (initial_fresh _ _ _ I) as (U0 & _ & _ & B0).
  assert (Inv : upstreamWs s = Some OPEN -> messageBuffer s = []).
  { eapply run_buffer_empty; [exact R|]. auto. }
  split; [exact Inv|]. split; [eapply run_opens_once; exact R|]. split.
  - intros r S. apply step_relay in S. simpl in S. tauto.
  - intros f r S. apply step_relay in S. simpl in S. destruct S as (_ & S).
    unfold upstream_is_open in *. destruct (upstreamWs s) as [[]|]; try exact S.
    destruct S as (-> & ->). auto.
Qed.

Lemma buffer_invariant_witness :
  exists s acts,
    run Example.ws Example.env_open Example.s0
      [ClientMessage Example.A; UpstreamOpen; ClientMessage Example.D] = Some (s, acts) /\
    messageBuffer s = [].
Proof.
  destruct (run Example.ws Example.env_open Example.s0
              [ClientMessage Example.A; UpstreamOpen; ClientMessage Example.D])
    as [[s acts]|] eqn:R; [|discriminate R].
  exists s, acts. split; [reflexivity|].
  apply (buffer_invariant Example.ws Example.env_open Example.s0
           [ClientMessage Example.A; UpstreamOpen; ClientMessage Example.D] s acts
           example_initial R).
  vm_compute in R. injection R as <- _. reflexivity.
Defined.

(** C4 as first stated fails: after the upstream leg has opened (and the
    buffer has been drained) and closed, a client frame is appended to the
    buffer, which is then non-empty although the upstream leg is neither
    absent nor still to open. *)
Lemma buffer_invariant_counterexample :
  initial Example.ws Example.env_open Example.s0 /\
  option_map (fun p => (upstreamWs (fst p), messageBuffer (fst p)))
    (run Example.ws Example.env_open Example.s0
       [ClientMessage Example.A; UpstreamOpen;
        UpstreamClose 105 (Some 1000%Z) (Some "done"); ClientMessage Example.B])
    = Some (Some CLOSED, [Example.B]).
Proof. split; [exact example_initial | reflexivity]. Qed.

(** ** Client frames after the upstream leg has closed *)

Lemma step_upstream_closed lib env s e r :
  upstreamWs s = Some CLOSED -> step lib env s e = Some r ->
  upstreamWs (state r) = Some CLOSED /\
  sends Upstream (output r) = [] /\ sends Client (output r) = [] /\
  exists rest, messageBuffer (state r) = messageBuffer s ++ rest.
Proof.
  intros U H. step_inv H; try discriminate U; repeat split;
    rewrite ?sends_app, ?sends_cons_Close, ?sends_log, ?sends_caught;
    try reflexivity;
    solve [ exists []; simpl; now rewrite ?app_nil_r | eexists [_]; reflexivity ].
Qed.

Lemma run_upstream_closed lib env s evs s' acts :
  upstreamWs s = Some CLOSED -> run lib env s evs = Some (s', acts) ->
  sends Upstream acts = [] /\ sends Client acts = [] /\
  exists rest, messageBuffer s' = messageBuffer s ++ rest.
Proof.
  revert s acts. induction evs as [|e evs IH]; intros s acts U H.
  - injection H as <- <-. repeat split. exists []. now rewrite app_nil_r.
  - apply run_cons in H as (s1 & o1 & acts' & Hs & Hr & ->).
    destruct (step_upstream_closed _ _ _ _ _ U Hs) as (U1 & S1 & C1 & rest1 & B1).
    simpl in U1, S1, C1, B1.
    destruct (IH _ _ U1 Hr) as (S2 & C2 & rest2 & B2).
    rewrite !sends_app, S1, S2, C1, C2. repeat split.
    exists (rest1 ++ rest2). rewrite B2, B1. now rewrite app_assoc.
Qed.

(** C10.  When the upstream leg has closed and the client leg has not,
    a client frame that arrives is appended to the buffer (the handler
    returns normally, sends nothing and closes nothing); in whatever follows
    nothing is sent to either peer, and the frame stays in the buffer. *)
Theorem post_close_rebuffering lib env s f :
  upstreamWs s = Some CLOSED ->
  clientWs s = OPEN \/ clientWs s = CLOSING ->
  exists r,
    step lib env s (ClientMessage f) = Some r /\
    messageBuffer (state r) = messageBuffer s ++ [f] /\
    outcome r = Normal /\
    sends Upstream (output r) = [] /\ sends Client (output r) = [] /\
    closes (output r) = [] /\
    forall evs s' acts,
      run lib env (state r) evs = Some (s', acts) ->
      sends Upstream acts = [] /\ sends Client acts = [] /\
      exists rest, messageBuffer s' = messageBuffer s ++ f :: rest.
Proof.
  intros U C. exists (on_client_message env s f). split.
  - unfold step. destruct C as [-> | ->]; reflexivity.
  - unfold on_client_message. rewrite U. simpl.
    rewrite !sends_log, closes_log. repeat split.
    + eapply run_upstream_closed; [|exact H]. exact U.
    + eapply run_upstream_closed; [|exact H]. exact U.
    + destruct (run_upstream_closed lib env
                  (set_messageBuffer (messageBuffer s ++ [f]) s) evs s' acts U H)
        as (_ & _ & rest & ->).
      exists rest. simpl. now rewrite <- app_assoc.
Qed.

Lemma post_close_rebuffering_witness :
  exists r,
    step Example.ws Example.env_open
      (Session "c" 0 CLOSING (Some CLOSED) true []) (ClientMessage Example.A) = Some r /\
    messageBuffer (state r) = [Example.A] /\
    sends Upstream (output r) = [].
Proof.
  destruct (post_close_rebuffering Example.ws Example.env_open
              (Session "c" 0 CLOSING (Some CLOSED) true []) Example.A
              eq_refl (or_intror eq_refl)) as (r & Hs & Hb & _ & Hu & _).
  exists r. auto.
Defined.

(** * Further properties *)

(** ** Frames are conserved *)

Lemma step_buffer_empty lib env s e r :
  step lib env s e = Some r ->
  (upstreamWs s = Some OPEN -> messageBuffer s = []) ->
  upstreamWs (state r) = Some OPEN -> messageBuffer (state r) = [].
Proof.
  intros Hs Inv. apply step_relay in Hs. destruct e.
  - destruct Hs as (_ & _ & _ & B). auto.
  - destruct Hs as (_ & -> & O & _). auto.
  - destruct Hs as (-> & Hs). intros U. unfold upstream_is_open in Hs.
    rewrite U in Hs. destruct Hs as (_ & ->). auto.
  - destruct Hs as (_ & -> & O & _). auto.
  - destruct Hs as (_ & -> & O & _). auto.
  - destruct Hs as (_ & -> & O & _). auto.
  - destruct Hs as (_ & -> & O & _). auto.
  - destruct Hs as (_ & -> & O & _). auto.
Qed.

Lemma run_conserves lib env s evs s' acts :
  run lib env s evs = Some (s', acts) ->
  (upstreamWs s = Some OPEN -> messageBuffer s = []) ->
  sends Upstream acts ++ messageBuffer s' = messageBuffer s ++ client_frames evs.
Proof.
  revert s acts. induction evs as [|e evs IH]; intros s acts H Inv.
  - injection H as <- <-. change (client_frames []) with (@nil frame).
    now rewrite app_nil_r.
  - apply run_cons in H as (s1 & o1 & acts' & Hs & Hr & ->).
    pose proof (step_buffer_empty _ _ _ _ _ Hs Inv) as Inv1. simpl in Inv1.
    specialize (IH _ _ Hr Inv1). apply step_relay in Hs. simpl in Hs.
    rewrite sends_app, <- app_assoc, IH, client_frames_cons. destruct e; simpl.
    + destruct Hs as (_ & _ & -> & ->). reflexivity.
    + destruct Hs as (-> & -> & _). reflexivity.
    + destruct Hs as (_ & Hs). unfold upstream_is_open in *.
      destruct (upstreamWs s) as [[]|]; destruct Hs as (-> & ->);
        rewrite <- ?app_assoc; try reflexivity.
      rewrite Inv by reflexivity. reflexivity.
    + destruct Hs as (-> & -> & _). reflexivity.
    + destruct Hs as (-> & -> & _). reflexivity.
    + destruct Hs as (-> & -> & _). reflexivity.
    + destruct Hs as (-> & -> & _). reflexivity.
    + destruct Hs as (-> & -> & _). reflexivity.
Qed.

(** X1.  At every point of a session, the frames sent upstream so far
    followed by the frames still in the buffer are exactly the frames the
    client has sent, in arrival order: no client frame is dropped,
    duplicated or reordered on its way into the proxy. *)
Theorem client_frames_conserved lib env s0 evs s acts :
  initial lib env s0 ->
  run lib env s0 evs = Some (s, acts) ->
  sends Upstream acts ++ messageBuffer s = client_frames evs.
Proof.
  intros I R. destruct (initial_fresh _ _ _ I) as (U0 & _ & _ & B0).
  rewrite (run_conserves _ _ _ _ _ _ R); [now rewrite B0|].
  rewrite U0. discriminate.
Qed.

Lemma client_frames_conserved_witness :
  exists s acts,
    run Example.ws Example.env_open Example.s0
      [ClientMessage Example.A; UpstreamOpen; ClientMessage Example.B;
       UpstreamClose 105 None None; ClientMessage Example.C] = Some (s, acts) /\
    sends Upstream acts ++ messageBuffer s = [Example.A; Example.B; Example.C].
Proof.
  destruct (run Example.ws Example.env_open Example.s0
              [ClientMessage Example.A; UpstreamOpen; ClientMessage Example.B;
               UpstreamClose 105 None None; ClientMessage Example.C])
    as [[s acts]|] eqn:R; [|discriminate R].
  exists s, acts. split; [reflexivity|].
  exact (client_frames_conserved _ _ _ _ _ _ example_initial R).
Defined.

(** ** Upstream to client never reorders *)

Lemma step_to_client lib env s e r :
  step lib env s e = Some r ->
  sends Client (output r)
    = (if client_is_open s then upstream_frames [e] else []) /\
  (keeps_client_open e = true -> clientWs (state r) = clientWs s).
Proof.
  intros H. step_inv H; unfold client_is_open; simpl; split;
    try discriminate; try reflexivity;
    rewrite ?sends_app, ?sends_cons_Close, ?sends_cons_Send_Upstream, ?sends_cons_Send,
      ?sends_log, ?sends_caught, ?sends_map_Send_other;
    reflexivity.
Qed.

Lemma upstream_frames_cons e evs :
  upstream_frames (e :: evs) = upstream_frames [e] ++ upstream_frames evs.
Proof. unfold upstream_frames. simpl. destruct e; reflexivity. Qed.

(** X2.  What the client is sent is a subsequence, in arrival order, of the
    frames that came from upstream: frames may be dropped but are never
    reordered, duplicated or made up; and as long as the client leg stays
    open, every upstream frame is forwarded. *)
Theorem upstream_frames_in_order lib env s evs s' acts :
  run lib env s evs = Some (s', acts) ->
  sends Client acts `sublist_of` upstream_frames evs /\
  (clientWs s = OPEN -> forallb keeps_client_open evs = true ->
   sends Client acts = upstream_frames evs /\ clientWs s' = OPEN).
Proof.
  revert s acts. induction evs as [|e evs IH]; intros s acts H.
  - injection H as <- <-. split; [constructor | auto].
  - apply run_cons in H as (s1 & o1 & acts' & Hs & Hr & ->).
    destruct (IH _ _ Hr) as (Sub & All).
    apply step_to_client in Hs. simpl in Hs. destruct Hs as (S1 & K1).
    rewrite sends_app, upstream_frames_cons, S1. split.
    + apply sublist_app; [|exact Sub].
      destruct (client_is_open s); [reflexivity | apply sublist_nil_l].
    + intros O K. simpl in K. apply andb_true_iff in K as [Ke Kr].
      unfold client_is_open. rewrite O. simpl.
      rewrite <- (K1 Ke) in O. destruct (All O Kr) as (-> & ->). auto.
Qed.

Lemma upstream_frames_in_order_witness :
  exists s acts,
    run Example.ws Example.env_open Example.s0
      [UpstreamOpen; UpstreamMessage Example.A; UpstreamMessage Example.D]
      = Some (s, acts) /\
    sends Client acts = [Example.A; Example.D].
Proof.
  destruct (run Example.ws Example.env_open Example.s0
              [UpstreamOpen; UpstreamMessage Example.A; UpstreamMessage Example.D])
    as [[s acts]|] eqn:R; [|discriminate R].
  exists s, acts. split; [reflexivity|].
  apply (upstream_frames_in_order _ _ _ _ _ _ R); reflexivity.
Defined.

(** ** Sending and closing *)

(** X3.  A handler calls [send] on a socket only while that socket's
    [readyState] is [OPEN]: whenever a step sends something upstream the
    upstream leg is open, and whenever it sends something to the client the
    client leg is open. *)
Theorem send_only_when_open lib env s e r :
  step lib env s e = Some r ->
  (sends Upstream (output r) <> [] -> upstreamWs (state r) = Some OPEN) /\
  (sends Client (output r) <> [] -> clientWs s = OPEN /\ clientWs (state r) = OPEN).
Proof.
  intros H. step_inv H; split; intros N; try reflexivity; try (split; reflexivity);
    exfalso; apply N;
    rewrite ?sends_app, ?sends_cons_Close, ?sends_cons_Send_Upstream,
      ?sends_cons_Send_Client, ?sends_log, ?sends_caught, ?sends_map_Send_other;
    reflexivity.
Qed.

Lemma send_only_when_open_witness :
  upstreamWs (state (on_client_message Example.env_open
                       (Session "c" 0 OPEN (Some OPEN) false []) Example.A))
    = Some OPEN.
Proof.
  refine (proj1 (send_only_when_open Example.ws Example.env_open
                   (Session "c" 0 OPEN (Some OPEN) false []) (ClientMessage Example.A)
                   _ eq_refl) _).
  discriminate.
Defined.

Lemma run_close_count lib env s evs s' acts :
  upstreamWs s <> None -> isClosing s = false ->
  run lib env s evs = Some (s', acts) ->
  isClosing s' = existsb is_close_trigger evs /\
  length (closes acts) = (if isClosing s' then 1 else 0).
Proof.
  revert s acts. induction evs as [|e evs IH]; intros s acts U L H.
  - injection H as <- <-. rewrite L. auto.
  - apply run_cons in H as (s1 & o1 & acts' & Hs & Hr & ->). simpl.
    rewrite closes_app, length_app.
    pose proof (step_upstream_present _ _ _ _ _ Hs U) as U1. simpl in U1.
    destruct (is_close_trigger e) eqn:T.
    + destruct (step_trigger _ _ _ _ _ T U L Hs) as (L1 & c & _ & C1). simpl in L1, C1.
      destruct (run_latched _ _ _ _ _ _ L1 Hr) as (-> & ->). rewrite C1. auto.
    + destruct (step_not_trigger _ _ _ _ _ T Hs) as (L1 & C1). simpl in L1, C1.
      rewrite L in L1. destruct (IH _ _ U1 L1 Hr) as (-> & ->). rewrite C1. auto.
Qed.

(** X4.  Over a whole session, the latch is set exactly when a
    close-trigger has occurred, and the proxy has then made exactly one
    close call in total; before any trigger it has made none. *)
Theorem one_close_call_per_session lib env s0 evs s acts :
  initial lib env s0 ->
  run lib env s0 evs = Some (s, acts) ->
  isClosing s = existsb is_close_trigger evs /\
  length (closes acts) = (if existsb is_close_trigger evs then 1 else 0).
Proof.
  intros I R. destruct (initial_fresh _ _ _ I) as (U0 & _ & L0 & _).
  destruct (run_close_count lib env s0 evs s acts) as (E & N); auto.
  - rewrite U0. discriminate.
  - rewrite <- E. auto.
Qed.

Lemma one_close_call_per_session_witness :
  exists s acts,
    run Example.ws Example.env_open Example.s0
      [UpstreamOpen; ClientClose 7 (Some 1000%Z) None;
       UpstreamError "late"; UpstreamClose 9 (Some 1006%Z) None] = Some (s, acts) /\
    length (closes acts) = 1.
Proof.
  destruct (run Example.ws Example.env_open Example.s0
              [UpstreamOpen; ClientClose 7 (Some 1000%Z) None;
               UpstreamError "late"; UpstreamClose 9 (Some 1006%Z) None])
    as [[s acts]|] eqn:R; [|discriminate R].
  exists s, acts. split; [reflexivity|].
  exact (proj2 (one_close_call_per_session _ _ _ _ _ _ example_initial R)).
Defined.

Lemma log_warn env message meta : log env "warn" message meta = [Log "warn" message meta].
Proof. unfold log. now rewrite orb_true_r. Qed.

(** X5.  The two close handlers never let an exception out, whatever the
    library's [close] does: when the close call on the opposite leg throws,
    the handler still returns normally and logs a warning that carries the
    error message. *)
Theorem close_failures_are_caught lib env s now code reason :
  (forall r,
      step lib env s (UpstreamClose now code reason) = Some r ->
      outcome r = Normal /\
      forall m,
        isClosing s = false ->
        close_error lib (clientWs s) (JS.or_1000 code) (JS.or_empty reason) = Some m ->
        In (Log "warn" "Error closing client connection"
              [("clientId", JS.Str (clientId s)); ("error", JS.Str m)]) (output r)) /\
  (forall r,
      step lib env s (ClientClose now code reason) = Some r ->
      outcome r = Normal /\
      forall m rs,
        isClosing s = false -> upstreamWs s = Some rs ->
        close_error lib rs (JS.or_1000 code) (JS.or_empty reason) = Some m ->
        In (Log "warn" "Error closing upstream connection"
              [("clientId", JS.Str (clientId s)); ("error", JS.Str m)]) (output r)).
Proof.
  split; intros r H.
  - unfold step in H. destruct (upstreamWs s) as [[]|]; try discriminate H;
      injection H as <-; unfold on_upstream_close; simpl;
      (destruct (isClosing s); simpl; (split; [reflexivity|]); intros m L E;
       [discriminate L|]; rewrite E; unfold caught; rewrite log_warn;
       rewrite !in_app_iff; simpl; auto).
  - unfold step in H. destruct (clientWs s); try discriminate H;
      injection H as <-; unfold on_client_close; simpl;
      (destruct (upstreamWs s) as [rs'|]; [destruct (isClosing s)|]; simpl;
       (split; [reflexivity|]); intros m rs L U E; try discriminate;
       injection U as ->; rewrite E; unfold caught; rewrite log_warn;
       rewrite !in_app_iff; simpl; auto).
Qed.

Lemma close_failures_are_caught_witness :
  exists r,
    step Example.ws Example.env_open (Session "c" 0 OPEN (Some OPEN) false [])
      (ClientClose 7 (Some 1005%Z) None) = Some r /\
    outcome r = Normal /\
    In (Log "warn" "Error closing upstream connection"
          [("clientId", JS.Str "c");
           ("error", JS.Str "First argument must be a valid error code number")])
       (output r).
Proof.
  destruct (close_failures_are_caught Example.ws Example.env_open
              (Session "c" 0 OPEN (Some OPEN) false []) 7 (Some 1005%Z) None) as (_ & H).
  eexists. split; [reflexivity|].
  destruct (H _ eq_refl) as (N & W). split; [exact N|].
  exact (W _ OPEN eq_refl eq_refl eq_refl).
Defined.

(** X6.  The two error handlers make their close call outside any [try]:
    with the latch false, an exception thrown by [close] escapes the
    handler, and it does so after the latch has been set, so no later
    trigger closes the other leg either. *)
Theorem error_handler_close_is_unprotected lib env s message m :
  isClosing s = false ->
  (forall r,
      step lib env s (UpstreamError message) = Some r ->
      close_error lib (clientWs s) 1011 "Upstream connection error" = Some m ->
      outcome r = Throw m /\ isClosing (state r) = true) /\
  (forall r rs,
      step lib env s (ClientError message) = Some r ->
      upstreamWs s = Some rs ->
      close_error lib rs 1011 "Client connection error" = Some m ->
      outcome r = Throw m /\ isClosing (state r) = true).
Proof.
  intros L. split.
  - intros r H E. unfold step in H. destruct (upstreamWs s) as [[]|]; try discriminate H;
      injection H as <-; unfold on_upstream_error; simpl; rewrite L; simpl;
      rewrite E; auto.
  - intros r rs H U E. unfold step in H. destruct (clientWs s); try discriminate H;
      injection H as <-; unfold on_client_error; simpl; rewrite U, L; simpl;
      rewrite E; auto.
Qed.

Lemma error_handler_close_is_unprotected_witness :
  outcome (on_upstream_error
             {| close_error := fun _ _ _ => Some "closed";
                ctor_error := fun _ _ => None;
                handshake_completes := fun _ => true |}
             Example.env_open (Session "c" 0 OPEN (Some CLOSING) false []) "reset")
    = Throw "closed".
Proof.
  refine (proj1 (proj1 (error_handler_close_is_unprotected
                          {| close_error := fun _ _ _ => Some "closed";
                             ctor_error := fun _ _ => None;
                             handshake_completes := fun _ => true |}
                          Example.env_open (Session "c" 0 OPEN (Some OPEN) false [])
                          "reset" "closed" eq_refl) _ eq_refl eq_refl)).
Defined.

(** ** What the log shows *)

Lemma tagged_log id env level message meta :
  head meta = Some ("clientId", JS.Str id) ->
  Forall (tagged id) (log env level message meta).
Proof.
  intros H. destruct (log_cases env level message meta) as [-> | ->];
    repeat constructor. exact H.
Qed.

Lemma tagged_caught id env s what e :
  clientId s = id -> Forall (tagged id) (caught env s what e).
Proof.
  intros <-. unfold caught. destruct e; [apply tagged_log; reflexivity | apply List.Forall_nil].
Qed.

Lemma tagged_sends id l (fs : list frame) : Forall (tagged id) (map (Send l) fs).
Proof. induction fs; simpl; constructor; simpl; auto. Qed.

Ltac tagged_tac :=
  repeat first
    [ apply List.Forall_nil
    | apply tagged_log; reflexivity
    | apply tagged_caught; reflexivity
    | apply tagged_sends
    | apply Forall_app; split
    | apply List.Forall_cons; [exact I|] ].

Lemma step_tagged lib env s e r :
  step lib env s e = Some r ->
  Forall (tagged (clientId s)) (output r) /\
  clientId (state r) = clientId s /\ startTime (state r) = startTime s.
Proof.
  intros H. step_inv H; (split; [|split; reflexivity]); tagged_tac.
Qed.

(** X7.  Every line a session's handlers log carries that session's
    [clientId] as the first field of its meta object, and the identifier and
    the start time never change during the session. *)
Theorem session_log_is_tagged lib env s evs s' acts :
  run lib env s evs = Some (s', acts) ->
  Forall (tagged (clientId s)) acts /\
  clientId s' = clientId s /\ startTime s' = startTime s.
Proof.
  revert s acts. induction evs as [|e evs IH]; intros s acts H.
  - injection H as <- <-. repeat split. constructor.
  - apply run_cons in H as (s1 & o1 & acts' & Hs & Hr & ->).
    destruct (step_tagged _ _ _ _ _ Hs) as (T1 & I1 & S1). simpl in T1, I1, S1.
    destruct (IH _ _ Hr) as (T2 & I2 & S2). rewrite I1 in T2, I2. rewrite S1 in S2.
    repeat split; auto. apply Forall_app. auto.
Qed.

Lemma session_log_is_tagged_witness :
  exists s acts,
    run Example.ws Example.env_open Example.s0
      [ClientMessage Example.A; UpstreamOpen; UpstreamClose 105 None None]
      = Some (s, acts) /\
    Forall (tagged "client-1-abc") acts.
Proof.
  destruct (run Example.ws Example.env_open Example.s0
              [ClientMessage Example.A; UpstreamOpen; UpstreamClose 105 None None])
    as [[s acts]|] eqn:R; [|discriminate R].
  exists s, acts. split; [reflexivity|].
  exact (proj1 (session_log_is_tagged _ _ _ _ _ _ R)).
Defined.

(** ** Logging does not steer the proxy *)

#[global] Arguments effects : simpl never.

Lemma effects_app a b : effects (a ++ b) = effects a ++ effects b.
Proof. apply List.filter_app. Qed.

Lemma effects_log env level message meta : effects (log env level message meta) = [].
Proof. destruct (log_cases env level message meta) as [-> | ->]; reflexivity. Qed.

Lemma effects_caught env s what e : effects (caught env s what e) = [].
Proof. unfold caught. destruct e; [apply effects_log | reflexivity]. Qed.

Lemma effects_cons a l : effects (a :: l) = (if is_log a then [] else [a]) ++ effects l.
Proof. unfold effects. simpl. destruct (is_log a); reflexivity. Qed.

Lemma effects_sends l (fs : list frame) : effects (map (Send l) fs) = map (Send l) fs.
Proof.
  induction fs as [|f fs IH]; [reflexivity|].
  simpl. rewrite effects_cons, IH. reflexivity.
Qed.

Ltac effects_tac :=
  repeat (rewrite ?effects_app, ?effects_log, ?effects_caught, ?effects_sends;
          rewrite ?effects_cons; cbn [is_log app]).

Lemma step_effects lib env1 env2 s e :
  option_map observed (step lib env1 s e) = option_map observed (step lib env2 s e).
Proof.
  destruct s as [? ? [] [[]|] [] [|? ?]]; destruct e as [| | | | | | |[]];
    unfold step, on_upstream_open, on_upstream_message, on_client_message,
      on_upstream_error, on_upstream_close, on_client_close, on_client_error, observed;
    simpl; try reflexivity;
    change (Send Upstream ?f :: map (Send Upstream) ?l)
      with (map (Send Upstream) (f :: l));
    effects_tac; reflexivity.
Qed.

Lemma run_effects lib env1 env2 s evs :
  option_map (fun p => (fst p, effects (snd p))) (run lib env1 s evs)
  = option_map (fun p => (fst p, effects (snd p))) (run lib env2 s evs).
Proof.
  revert s. induction evs as [|e evs IH]; intros s; [reflexivity|].
  simpl. pose proof (step_effects lib env1 env2 s e) as H. unfold observed in H.
  destruct (step lib env1 s e) as [[s1 o1 c1]|], (step lib env2 s e) as [[s2 o2 c2]|];
    simpl in H; try discriminate H; [|reflexivity].
  injection H as -> Ho ->. destruct c2; [|reflexivity].
  specialize (IH s2).
  destruct (run lib env1 s2 evs) as [[s1' a1]|], (run lib env2 s2 evs) as [[s2' a2]|];
    simpl in IH |- *; try discriminate IH; [|reflexivity].
  injection IH as -> Ha. now rewrite !effects_app, Ho, Ha.
Qed.

Lemma policy_ALLOWED_ORIGINS env1 env2 :
  same_policy env1 env2 -> ALLOWED_ORIGINS env1 = ALLOWED_ORIGINS env2.
Proof. intros [H _]. unfold ALLOWED_ORIGINS. now rewrite H. Qed.

Lemma policy_rejectUnauthorized env1 env2 :
  same_policy env1 env2 -> rejectUnauthorized env1 = rejectUnauthorized env2.
Proof. intros [_ H]. unfold rejectUnauthorized. now rewrite H. Qed.

Lemma upgrade_effects env1 env2 req :
  same_policy env1 env2 ->
  effects (fst (upgrade env1 req)) = effects (fst (upgrade env2 req)) /\
  snd (upgrade env1 req) = snd (upgrade env2 req).
Proof.
  intros P. unfold upgrade, reject. rewrite (policy_ALLOWED_ORIGINS _ _ P).
  repeat match goal with
         | |- context [if ?b then _ else _] => destruct b
         | |- context [match ALLOWED_ORIGINS env2 with Some _ => _ | None => _ end] =>
             destruct (ALLOWED_ORIGINS env2)
         end; cbn [fst snd]; (split; [|reflexivity]); effects_tac; reflexivity.
Qed.

Lemma connection_effects lib env1 env2 id now req t u :
  same_policy env1 env2 ->
  state (connection lib env1 id now req t u) = state (connection lib env2 id now req t u) /\
  effects (output (connection lib env1 id now req t u))
    = effects (output (connection lib env2 id now req t u)) /\
  outcome (connection lib env1 id now req t u)
    = outcome (connection lib env2 id now req t u).
Proof.
  intros P. unfold connection. rewrite (policy_rejectUnauthorized _ _ P).
  destruct (ctor_error lib u (upstream_headers t req)); cbn [state output outcome];
    repeat split; effects_tac; reflexivity.
Qed.

(** X8.  Logging is passive: two proxies configured alike except for
    [LOG_LEVEL] do exactly the same things apart from logging.  They answer
    every upgrade request alike, construct the same upstream connection,
    and in every run of session events make the same send and close calls
    and reach the same session state. *)
Theorem logging_is_passive lib env1 env2 :
  same_policy env1 env2 ->
  (forall id now req,
      state (serve lib env1 id now req) = state (serve lib env2 id now req) /\
      effects (output (serve lib env1 id now req))
        = effects (output (serve lib env2 id now req)) /\
      outcome (serve lib env1 id now req) = outcome (serve lib env2 id now req)) /\
  (forall s evs,
      option_map (fun p => (fst p, effects (snd p))) (run lib env1 s evs)
      = option_map (fun p => (fst p, effects (snd p))) (run lib env2 s evs)).
Proof.
  intros P. split; [|intros; apply run_effects].
  intros id now req. destruct (upgrade_effects env1 env2 req P) as (E & V).
  unfold serve. destruct (upgrade env1 req) as [a1 v1], (upgrade env2 req) as [a2 v2].
  simpl in E, V. subst v2. destruct v1 as [|t u]; [simpl; auto|].
  destruct (handshake_completes lib req); [|simpl; auto].
  destruct (connection_effects lib env1 env2 id now req t u P) as (S & O & C).
  cbn [state output outcome]. rewrite !effects_app, E, O. auto.
Qed.

Lemma logging_is_passive_witness :
  effects (output (serve Example.ws Example.env_open "c" 0 Example.good))
  = effects (output (serve Example.ws
                       {| env_ALLOWED_ORIGINS := None;
                          env_LOG_LEVEL := Some "error";
                          env_REJECT_UNAUTHORIZED := None |} "c" 0 Example.good)).
Proof.
  apply (logging_is_passive Example.ws Example.env_open
           {| env_ALLOWED_ORIGINS := None;
              env_LOG_LEVEL := Some "error";
              env_REJECT_UNAUTHORIZED := None |}).
  split; reflexivity.
Defined.

Lemma log_alike env1 env2 level message meta :
  LOG_LEVEL env1 <> "debug" -> LOG_LEVEL env2 <> "debug" ->
  log env1 level message meta = log env2 level message meta.
Proof.
  intros H1 H2. unfold log. apply String.eqb_neq in H1, H2. now rewrite H1, H2.
Qed.

Lemma log_debug_silent env message meta :
  LOG_LEVEL env <> "debug" -> log env "debug" message meta = [].
Proof. intros H. unfold log. apply String.eqb_neq in H. now rewrite H. Qed.

(** X9.  While the proxy answers upgrade requests and handles the events
    of a session, only the exact value [debug] of [LOG_LEVEL] changes what
    is logged: under any two other values (unset, "info", "error", "DEBUG",
    ...) the upgrade handler, the connection handler and every run of
    session events produce the same output, log lines included, and the
    forwarding or buffering of a frame logs nothing at all.  The lines
    printed at startup (lines 257-265), one of which shows [LOG_LEVEL]
    itself, are outside this statement. *)
Theorem only_debug_changes_the_log lib env1 env2 :
  same_policy env1 env2 ->
  LOG_LEVEL env1 <> "debug" -> LOG_LEVEL env2 <> "debug" ->
  (forall id now req, serve lib env1 id now req = serve lib env2 id now req) /\
  (forall s evs, run lib env1 s evs = run lib env2 s evs) /\
  (forall s f r,
      step lib env1 s (ClientMessage f) = Some r
      \/ step lib env1 s (UpstreamMessage f) = Some r ->
      logs (output r) = []).
Proof.
  intros P H1 H2.
  assert (L : forall level message meta,
             log env1 level message meta = log env2 level message meta).
  { intros. now apply log_alike. }
  assert (Lc : forall s what e, caught env1 s what e = caught env2 s what e).
  { intros s what [m|]; unfold caught; [apply L | reflexivity]. }
  assert (S : forall s e, step lib env1 s e = step lib env2 s e).
  { intros s e.
    destruct s as [? ? [] [[]|] [] [|? ?]]; destruct e as [| | | | | | |[]];
      unfold step, on_upstream_open, on_upstream_message, on_client_message,
        on_upstream_error, on_upstream_close, on_client_close, on_client_error;
      simpl; repeat rewrite L; repeat rewrite Lc; reflexivity. }
  split; [|split].
  - intros id now req.
    assert (U : upgrade env1 req = upgrade env2 req).
    { unfold upgrade. rewrite (policy_ALLOWED_ORIGINS _ _ P). cbv zeta.
      repeat rewrite L. reflexivity. }
    assert (C : forall t u, connection lib env1 id now req t u
                            = connection lib env2 id now req t u).
    { intros t u. unfold connection. rewrite (policy_rejectUnauthorized _ _ P). cbv zeta.
      destruct (ctor_error lib u (upstream_headers t req)); repeat rewrite L; reflexivity. }
    unfold serve. rewrite U. destruct (upgrade env2 req) as [a [|t u]]; [reflexivity|].
    now rewrite C.
  - intros s evs. revert s. induction evs as [|e evs IH]; intros s; [reflexivity|].
    simpl. rewrite S. destruct (step lib env2 s e) as [[s1 o1 [|m]]|]; try reflexivity.
    now rewrite IH.
  - intros s f r [H | H]; unfold step in H.
    + destruct (clientWs s); try discriminate H; injection H as <-;
        unfold on_client_message; destruct (upstreamWs s) as [[]|]; simpl;
        rewrite ?log_debug_silent by assumption; reflexivity.
    + destruct (upstreamWs s) as [[]|]; try discriminate H; injection H as <-;
        unfold on_upstream_message; destruct (readyState_eqb (clientWs s) OPEN); simpl;
        rewrite ?log_debug_silent by assumption; reflexivity.
Qed.

Lemma only_debug_changes_the_log_witness :
  serve Example.ws Example.env_a_com "c" 0 Example.good
  = serve Example.ws
      {| env_ALLOWED_ORIGINS := Some "https://a.com";
         env_LOG_LEVEL := Some "DEBUG";
         env_REJECT_UNAUTHORIZED := None |} "c" 0 Example.good.
Proof.
  apply (only_debug_changes_the_log Example.ws Example.env_a_com
           {| env_ALLOWED_ORIGINS := Some "https://a.com";
              env_LOG_LEVEL := Some "DEBUG";
              env_REJECT_UNAUTHORIZED := None |});
    [split; reflexivity | discriminate | discriminate].
Defined.

(** ** Payloads stay out of the log *)

Lemma logs_sends l (fs : list frame) : logs (map (Send l) fs) = [].
Proof. induction fs as [|f fs IH]; simpl; [reflexivity | exact IH]. Qed.

Lemma logs_caught env s what e : logs (caught env s what e) = caught env s what e.
Proof. unfold caught. destruct e; [apply logs_log | reflexivity]. Qed.

Lemma logs_cons a l : logs (a :: l) = (if is_log a then [a] else []) ++ logs l.
Proof. unfold logs. simpl. destruct a; reflexivity. Qed.

Lemma closes_cons_Send l f acts : closes (Send l f :: acts) = closes acts.
Proof. reflexivity. Qed.

Lemma bytes_shape f g : same_frame_shape f g -> bytes f = bytes g.
Proof. intros [H _]. unfold bytes. now rewrite H. Qed.

Ltac logs_tac :=
  repeat (rewrite ?logs_app, ?logs_log, ?logs_caught, ?logs_sends, ?closes_app,
            ?closes_log, ?closes_caught, ?closes_cons_Send, ?closes_map_Send;
          rewrite ?logs_cons; cbn [is_log app closes omap]).

Lemma step_shape lib env s1 s2 e1 e2 r1 :
  same_session_shape s1 s2 -> same_event_shape e1 e2 ->
  step lib env s1 e1 = Some r1 ->
  exists r2,
    step lib env s2 e2 = Some r2 /\
    same_session_shape (state r1) (state r2) /\
    logs (output r1) = logs (output r2) /\
    closes (output r1) = closes (output r2) /\
    outcome r1 = outcome r2.
Proof.
  intros Hs He H.
  destruct s1 as [id1 st1 cw1 uw1 ic1 b1], s2 as [id2 st2 cw2 uw2 ic2 b2].
  unfold same_session_shape in Hs. simpl in Hs.
  destruct Hs as (<- & <- & <- & <- & <- & Hl).
  destruct b1 as [|f1 b1], b2 as [|f2 b2]; simpl in Hl; try discriminate Hl;
    try (injection Hl as Hl);
    (destruct e1 as [| | | | | | |[]], e2 as [| | | | | | |[]];
     simpl in He; try discriminate He;
     try (pose proof (bytes_shape _ _ He) as Hb; destruct He as [_ Hbin]);
     try (inversion He; subst; clear He);
     unfold step, on_upstream_open, on_upstream_message, on_client_message,
       on_upstream_error, on_upstream_close, on_client_close, on_client_error in *;
     destruct cw1, uw1 as [[]|], ic1; simpl in H |- *;
     try discriminate H; injection H as <-;
     (eexists; split; [reflexivity|]);
     unfold same_session_shape; simpl;
     rewrite ?length_app, ?Hl, ?Hb, ?Hbin;
     repeat split; logs_tac; try reflexivity).
Qed.

(** X10.  Payload bytes never reach the log and never influence a close:
    two runs of a session whose events differ only in the bytes of the
    frames (same lengths, same binary flags) log the same lines and make the
    same close calls, and the second run is possible whenever the first
    is. *)
Theorem payload_is_never_logged lib env s1 s2 evs1 evs2 s1' a1 :
  same_session_shape s1 s2 ->
  Forall2 same_event_shape evs1 evs2 ->
  run lib env s1 evs1 = Some (s1', a1) ->
  exists s2' a2,
    run lib env s2 evs2 = Some (s2', a2) /\
    logs a1 = logs a2 /\ closes a1 = closes a2 /\
    same_session_shape s1' s2'.
Proof.
  intros Hs Hev. revert s1 s2 a1 Hs.
  induction Hev as [|e1 e2 evs1 evs2 He Hev IH]; intros s1 s2 a1 Hs H.
  - injection H as <- <-. exists s2, []. auto.
  - apply run_cons in H as (t1 & o1 & a1' & Hst & Hr & ->).
    destruct (step_shape _ _ _ _ _ _ _ Hs He Hst) as (r2 & Hst2 & Hs' & Hlog & Hcl & Hout).
    simpl in Hs', Hlog, Hcl, Hout.
    destruct (IH _ _ _ Hs' Hr) as (s2' & a2' & Hr2 & Hlog2 & Hcl2 & Hs2).
    exists s2', (output r2 ++ a2'). simpl. rewrite Hst2.
    destruct r2 as [t2 o2 c2]. simpl in *. subst c2. rewrite Hr2.
    rewrite !logs_app, !closes_app, Hlog, Hlog2, Hcl, Hcl2. auto.
Qed.

Lemma payload_is_never_logged_witness :
  exists s a1 a2,
    run Example.ws Example.env_open Example.s0
      [ClientMessage (Frame "secret order 1" false); UpstreamOpen] = Some (s, a1) /\
    run Example.ws Example.env_open Example.s0
      [ClientMessage (Frame "another text z" false); UpstreamOpen]
      = Some (set_messageBuffer [] s, a2) /\
    logs a1 = logs a2.
Proof.
  destruct (run Example.ws Example.env_open Example.s0
              [ClientMessage (Frame "secret order 1" false); UpstreamOpen])
    as [[s a1]|] eqn:R; [|discriminate R].
  destruct (payload_is_never_logged Example.ws Example.env_open Example.s0 Example.s0
              [ClientMessage (Frame "secret order 1" false); UpstreamOpen]
              [ClientMessage (Frame "another text z" false); UpstreamOpen] s a1)
    as (s2 & a2 & R2 & L & _ & _).
  - repeat split.
  - repeat constructor.
  - exact R.
  - exists s, a1, a2. split; [reflexivity|]. split; [|exact L].
    vm_compute in R, R2. injection R as <- _. injection R2 as <- <-. reflexivity.
Defined.

(** ** Every upgrade request ends in one of three ways *)








(** ** The upstream connection attempt *)

(** X12.  The upgrade handler never constructs a WebSocket itself, and it
    hands a request to the connection handler only when the [server]
    parameter is a single string that starts with [ws://] or [wss://] and
    the [token] parameter is present, that is a non-empty string or a
    repeated parameter (whose values may all be empty).  For a token given
    once, the connection handler then makes exactly one connection attempt,
    to that address, with that non-empty token as [X-Auth-Token]. *)
Theorem upstream_target_is_validated lib env id now (req : Full.request) t u :
  state (Full.upgrade env req) = Some (t, u) ->
  Full.server req = Full.Single u /\
  (String.prefix "ws://" u = true \/ String.prefix "wss://" u = true) /\
  t = Full.token req /\ Full.truthy t = true /\
  connects (output (Full.upgrade env req)) = [] /\
  (forall s, t = Full.Single s ->
     s <> "" /\
     connects (output (connection lib env id now (narrow req) s u))
       = [(u, upstream_headers s (narrow req))] /\
     upstream_headers s (narrow req) !! "X-Auth-Token" = Some s).
Proof.
  assert (Lc : forall level message meta, connects (log env level message meta) = [])
    by (intros; apply connects_log).
  unfold Full.upgrade, reject.
  destruct (Full.truthy (Full.token req)) eqn:T; cbn [negb fst state]; [|discriminate].
  destruct (Full.truthy (Full.server req)) eqn:S; cbn [negb fst state]; [|discriminate].
  destruct (Full.server req) as [|v|l] eqn:E; [discriminate S | | discriminate].
  cbn [Full.text]. unfold JS.startsWith.
  destruct (String.prefix "ws://" v) eqn:P1, (String.prefix "wss://" v) eqn:P2;
    cbn [negb andb];
    try discriminate;
    (destruct (ALLOWED_ORIGINS env) as [allowed|];
     [destruct (JS.truthy (Full.origin req) && _)|];
     cbn [state output]; try discriminate;
     intros [= <- <-]; rewrite T, connects_app, Lc;
     (split; [reflexivity|]; split; [auto|]; split; [reflexivity|];
      split; [reflexivity|]; split; [reflexivity|]; intros s Hs;
      split; [rewrite Hs in T; simpl in T; intros ->; discriminate T|];
      split; [apply connects_connection|];
      unfold upstream_headers; destruct (JS.truthy _);
      [rewrite lookup_insert_ne by discriminate|]; apply lookup_singleton_eq)).
Qed.

Lemma upstream_target_is_validated_witness :
  Full.server (widen Example.good) = Full.Single "wss://broker.example/" /\
  (String.prefix "ws://" "wss://broker.example/" = true
   \/ String.prefix "wss://" "wss://broker.example/" = true).
Proof.
  destruct (upstream_target_is_validated Example.ws Example.env_open "c" 0
              (widen Example.good) (Full.Single "secret-token-0001")
              "wss://broker.example/" eq_refl) as (S & P & _).
  split; [exact S | exact P].
Defined.

Lemma tls_flags_app a b : tls_flags (a ++ b) = tls_flags a ++ tls_flags b.
Proof. apply omap_app. Qed.

Lemma tls_flags_log env level message meta : tls_flags (log env level message meta) = [].
Proof. destruct (log_cases env level message meta) as [-> | ->]; reflexivity. Qed.

Lemma tls_flags_upgrade env req : tls_flags (fst (upgrade env req)) = [].
Proof.
  unfold upgrade, reject.
  repeat match goal with
         | |- context [if ?b then _ else _] => destruct b
         | |- context [match ?x with Some _ => _ | None => _ end] => destruct x
         end; cbn [fst]; rewrite ?tls_flags_app, ?tls_flags_log; reflexivity.
Qed.

(** X13.  Certificate verification of the upstream connection is on by
    default: a connection attempt is made with [rejectUnauthorized] false
    only when the environment variable [REJECT_UNAUTHORIZED] is exactly the
    string "false"; unset, empty or any other value ("0", "False", "no")
    leaves verification on. *)
Theorem tls_verification_is_on_by_default lib env id now req verify :
  In verify (tls_flags (output (serve lib env id now req))) ->
  (verify = false <-> env_REJECT_UNAUTHORIZED env = Some "false").
Proof.
  intros H. assert (V : verify = rejectUnauthorized env).
  { unfold serve in H. pose proof (tls_flags_upgrade env req) as U.
    destruct (upgrade env req) as [acts [|t u]]; simpl in U, H.
    - rewrite U in H. contradiction.
    - destruct (handshake_completes lib req); simpl in H; [|rewrite U in H; contradiction].
      rewrite tls_flags_app, U in H. simpl in H. unfold connection in H.
      destruct (ctor_error lib u (upstream_headers t req)); simpl in H;
        rewrite !tls_flags_app, !tls_flags_log in H; simpl in H;
        rewrite ?tls_flags_app, ?tls_flags_log in H; simpl in H; intuition. }
  subst verify. unfold rejectUnauthorized.
  destruct (env_REJECT_UNAUTHORIZED env) as [v|]; simpl.
  - destruct (String.eqb_spec v "false"); simpl; split; congruence.
  - split; discriminate.
Qed.

Lemma tls_verification_is_on_by_default_witness :
  true = false <-> env_REJECT_UNAUTHORIZED Example.env_open = Some "false".
Proof.
  apply (tls_verification_is_on_by_default Example.ws Example.env_open "c" 0 Example.good).
  vm_compute. auto.
Defined.

(** ** The origin allow-list as configured *)

Lemma split_comma_nonempty s : JS.split_comma s <> [].
Proof.
  destruct s as [|c s]; simpl; [discriminate|].
  destruct (Ascii.eqb c ","); [discriminate|].
  destruct (JS.split_comma s); discriminate.
Qed.

Lemma concat_cons_nonempty sep x xs :
  xs <> [] -> String.concat sep (x :: xs) = x +:+ sep +:+ String.concat sep xs.
Proof. destruct xs; [congruence | reflexivity]. Qed.

Lemma split_comma_join s : String.concat "," (JS.split_comma s) = s.
Proof.
  induction s as [|c s IH]; [reflexivity|]. simpl.
  destruct (Ascii.eqb_spec c ",") as [-> | Hc].
  - rewrite concat_cons_nonempty by apply split_comma_nonempty. simpl. now rewrite IH.
  - pose proof (split_comma_nonempty s) as N.
    destruct (JS.split_comma s) as [|x xs]; [congruence|].
    destruct xs as [|y ys]; simpl in *; now rewrite <- IH.
Qed.

Lemma split_comma_no_comma s : Forall (fun x => ~ has_comma x) (JS.split_comma s).
Proof.
  induction s as [|c s IH]; simpl.
  - repeat constructor. intros [].
  - destruct (Ascii.eqb_spec c ",") as [-> | Hc].
    + constructor; [intros [] | exact IH].
    + pose proof (split_comma_nonempty s) as N.
      destruct (JS.split_comma s) as [|x xs]; [congruence|].
      apply Forall_cons_1 in IH as [Hx Hxs]. constructor; [|exact Hxs].
      unfold has_comma. simpl. intros [E | H]; [congruence | exact (Hx H)].
Qed.

(** X14.  The allow-list is absent exactly when [ALLOWED_ORIGINS] is unset
    or empty.  Otherwise it is the non-empty list of the comma-separated
    pieces of the variable, taken as they are (nothing is trimmed or
    dropped): joining the entries with commas gives the variable back, and
    no entry contains a comma. *)
Theorem allow_list_is_the_split_variable env :
  match env_ALLOWED_ORIGINS env with
  | None | Some "" => ALLOWED_ORIGINS env = None
  | Some v =>
      exists allowed,
        ALLOWED_ORIGINS env = Some allowed /\ allowed <> [] /\
        String.concat "," allowed = v /\
        Forall (fun entry => ~ has_comma entry) allowed
  end.
Proof.
  unfold ALLOWED_ORIGINS. destruct (env_ALLOWED_ORIGINS env) as [[|c v]|];
    [reflexivity | | reflexivity].
  cbn [JS.truthy String.eqb negb JS.or_empty]. eexists. split; [reflexivity|].
  split; [apply split_comma_nonempty|]. split;
    [apply split_comma_join | apply split_comma_no_comma].
Qed.

(** ** The masked token *)

Lemma append_inj_length (a1 a2 b1 b2 : string) :
  String.length a1 = String.length a2 -> a1 +:+ b1 = a2 +:+ b2 -> a1 = a2 /\ b1 = b2.
Proof.
  revert a2. induction a1 as [|c a1 IH]; intros [|d a2] L E; simpl in *;
    try discriminate L; [auto|].
  injection E as -> E. injection L as L. destruct (IH _ L E) as [-> ->]. auto.
Qed.

(** X15.  The masked token has four characters for a token of at most
    eight and eleven otherwise, whatever the token's length; and two tokens
    have the same masked form exactly when both have at most eight
    characters, or both have more and agree on their first four and on
    their last four characters. *)
Theorem masked_token_shape t1 t2 :
  String.length (maskToken t1) = (if (String.length t1 <=? 8)%nat then 4 else 11) /\
  (maskToken t1 = maskToken t2 <->
   (String.length t1 <= 8 /\ String.length t2 <= 8) \/
   (8 < String.length t1 /\ 8 < String.length t2 /\
    String.substring 0 4 t1 = String.substring 0 4 t2 /\
    String.substring (String.length t1 - 4) 4 t1
      = String.substring (String.length t2 - 4) 4 t2)).
Proof.
  rewrite !maskToken_masked. unfold Spec.masked.
  destruct (Nat.leb_spec (String.length t1) 8) as [L1 | L1],
           (Nat.leb_spec (String.length t2) 8) as [L2 | L2].
  - split; [reflexivity|]. split; [auto | reflexivity].
  - split; [reflexivity|]. split.
    + intros E. apply (f_equal String.length) in E.
      rewrite !length_append, !length_substring in E by lia. discriminate E.
    + intros [[_ H] | (H & _)]; lia.
  - split; [rewrite !length_append, !length_substring by lia; reflexivity|]. split.
    + intros E. apply (f_equal String.length) in E.
      rewrite !length_append, !length_substring in E by lia. discriminate E.
    + intros [[H _] | (_ & H & _)]; lia.
  - split; [rewrite !length_append, !length_substring by lia; reflexivity|]. split.
    + intros E. right. apply append_inj_length in E as [Ea E];
        [|rewrite !length_substring by lia; reflexivity].
      apply (append_inj_length "..." "...") in E as [_ Eb]; [|reflexivity]. auto.
    + intros [[H _] | (_ & _ & -> & ->)]; [lia | reflexivity].
Qed.

(** ** The health endpoint *)

Lemma append_not_self (s suffix : string) : suffix <> "" -> s +:+ suffix <> s.
Proof.
  intros N E. apply (f_equal String.length) in E. rewrite length_append in E.
  destruct suffix; [congruence | simpl in E; lia].
Qed.

(** X16.  The HTTP listener answers every request with one head and one
    body.  The status is 200 exactly when the request URL is the string
    [/health]; any other URL, including [/health] followed by a query
    string or a slash, gets 404 with body "Not Found". *)
Theorem health_is_an_exact_match now url :
  exists status headers body,
    request_listener now url = [WriteHead status headers; EndResponse body] /\
    (status = 200%Z <-> url = "/health") /\
    (url <> "/health" -> status = 404%Z /\ headers = [] /\ body = "Not Found") /\
    (forall suffix, suffix <> "" ->
       request_listener now ("/health" +:+ suffix)
       = [WriteHead 404 []; EndResponse "Not Found"]).
Proof.
  unfold request_listener. destruct (String.eqb_spec url "/health") as [-> | N].
  - eexists _, _, _. split; [reflexivity|]. split; [tauto|]. split; [congruence|].
    intros suffix Hs. destruct (String.eqb_spec ("/health" +:+ suffix) "/health") as [E | _];
      [|reflexivity]. exfalso. exact (append_not_self "/health" suffix Hs E).
  - eexists _, _, _. split; [reflexivity|]. split; [split; [discriminate | tauto]|].
    split; [auto|].
    intros suffix Hs. destruct (String.eqb_spec ("/health" +:+ suffix) "/health") as [E | _];
      [|reflexivity]. exfalso. exact (append_not_self "/health" suffix Hs E).
Qed.

Lemma health_is_an_exact_match_witness :
  request_listener 1700000000000 "/health?probe=1"
  = [WriteHead 404 []; EndResponse "Not Found"].
Proof.
  destruct (health_is_an_exact_match 1700000000000 "/health") as (_ & _ & _ & _ & _ & _ & H).
  apply (H "?probe=1"). discriminate.
Defined.

(** ** The test scripts *)

(** X17.  The test scripts' own [maskToken] keeps six characters on either
    side, so for a token of nine to twelve characters the two kept parts
    overlap or touch and the printed form gives the whole token away: the
    token is its first six characters followed by the tail of its last
    six. *)
Theorem test_mask_reveals_short_tokens t :
  9 <= String.length t <= 12 ->
  let m := BrokerTests.maskToken t in
  String.length m = 15 /\
  String.substring 0 6 m
    +:+ String.substring (21 - String.length t) (String.length t - 6) m = t.
Proof.
  intros [Hlo Hhi]. cbv zeta.
  do 9 (destruct t as [|? t]; [simpl in Hlo; lia|]).
  destruct t as [|? t]; [split; reflexivity|].
  destruct t as [|? t]; [split; reflexivity|].
  destruct t as [|? t]; [split; reflexivity|].
  destruct t as [|? t]; [split; reflexivity|].
  simpl in Hhi. lia.
Qed.

Lemma test_mask_reveals_short_tokens_witness :
  String.substring 0 6 (BrokerTests.maskToken "tok123456")
    +:+ String.substring 12 3 (BrokerTests.maskToken "tok123456") = "tok123456".
Proof.
  refine (proj2 (test_mask_reveals_short_tokens "tok123456" _)).
  simpl. lia.
Defined.

Lemma checkHealth_spec responses fuel retries :
  retries < BrokerTests.maxRetries -> BrokerTests.maxRetries - retries <= fuel ->
  exists w,
    BrokerTests.checkHealth fuel responses retries = Some w /\
    retries < BrokerTests.requests w <= BrokerTests.maxRetries /\
    BrokerTests.timers w = BrokerTests.requests w - 1 /\
    (forall j, retries <= j < BrokerTests.requests w - 1 -> failed (responses j)) /\
    match BrokerTests.settled w with
    | BrokerTests.Resolved => is_200 (responses (BrokerTests.requests w - 1))
    | BrokerTests.Failed _ =>
        BrokerTests.requests w = BrokerTests.maxRetries /\
        failed (responses (BrokerTests.maxRetries - 1))
    | BrokerTests.Pending =>
        responses (BrokerTests.requests w - 1) = BrokerTests.Unanswered
    end.
Proof.
  unfold BrokerTests.maxRetries. revert retries.
  induction fuel as [|fuel IH]; intros retries Hr Hf; [lia|].
  cbn [BrokerTests.checkHealth]. unfold BrokerTests.maxRetries.
  assert (R : failed (responses retries) ->
              exists w,
                (if (10 <=? S retries)%nat
                 then Some (BrokerTests.HealthWait
                              (BrokerTests.Failed "Proxy health check failed after max retries")
                              (S retries) (S retries - 1))
                 else BrokerTests.checkHealth fuel responses (S retries)) = Some w /\
                retries < BrokerTests.requests w <= 10 /\
                BrokerTests.timers w = BrokerTests.requests w - 1 /\
                (forall j, retries <= j < BrokerTests.requests w - 1 ->
                           failed (responses j)) /\
                match BrokerTests.settled w with
                | BrokerTests.Resolved => is_200 (responses (BrokerTests.requests w - 1))
                | BrokerTests.Failed _ =>
                    BrokerTests.requests w = 10 /\ failed (responses (10 - 1))
                | BrokerTests.Pending =>
                    responses (BrokerTests.requests w - 1) = BrokerTests.Unanswered
                end).
  { intros N. destruct (Nat.leb_spec 10 (S retries)) as [Hm | Hm].
    - eexists. split; [reflexivity|].
      cbn [BrokerTests.requests BrokerTests.timers BrokerTests.settled].
      assert (retries = 9) as -> by lia.
      split; [lia|]. split; [reflexivity|]. split.
      + intros j Hj. lia.
      + split; [reflexivity | exact N].
    - destruct (IH (S retries)) as (w & Hw & Hreq & Ht & Hbefore & Hs); [lia | lia |].
      exists w. split; [exact Hw|]. split; [lia|]. split; [exact Ht|].
      split; [|exact Hs].
      intros j Hj. destruct (Nat.eq_dec j retries) as [-> | Hne]; [exact N|].
      apply Hbefore. lia. }
  destruct (responses retries) as [statusCode| |] eqn:E.
  - destruct (Z.eqb_spec statusCode 200) as [-> | Hne].
    + eexists. split; [reflexivity|].
      cbn [BrokerTests.requests BrokerTests.timers BrokerTests.settled].
      replace (S retries - 1) with retries by lia.
      split; [lia|]. split; [reflexivity|]. split; [intros j Hj; lia | exact E].
    + apply R. right. exists statusCode. auto.
  - apply R. left. reflexivity.
  - eexists. split; [reflexivity|].
    cbn [BrokerTests.requests BrokerTests.timers BrokerTests.settled].
    replace (S retries - 1) with retries by lia.
    split; [lia|]. split; [reflexivity|]. split; [intros j Hj; lia | exact E].
Qed.

(** X18.  [waitForProxyHealth] issues at most ten requests, one at a time,
    with one 500 ms timer between consecutive requests.  It resolves on the
    first request answered with status 200 and rejects once ten requests
    have failed (another status, or an error); every earlier request has
    failed.  It sets no timeout: when a request is never answered, the
    promise stays pending and no further request is made. *)
Theorem health_wait_is_bounded responses :
  exists w,
    BrokerTests.waitForProxyHealth responses = Some w /\
    1 <= BrokerTests.requests w <= 10 /\
    BrokerTests.timers w = BrokerTests.requests w - 1 /\
    (forall j, j < BrokerTests.requests w - 1 -> failed (responses j)) /\
    match BrokerTests.settled w with
    | BrokerTests.Resolved => is_200 (responses (BrokerTests.requests w - 1))
    | BrokerTests.Failed _ =>
        BrokerTests.requests w = 10 /\ forall j, j < 10 -> failed (responses j)
    | BrokerTests.Pending =>
        responses (BrokerTests.requests w - 1) = BrokerTests.Unanswered
    end.
Proof.
  destruct (checkHealth_spec responses BrokerTests.maxRetries 0)
    as (w & Hw & Hreq & Ht & Hbefore & Hs); unfold BrokerTests.maxRetries in *; try lia.
  exists w. split; [exact Hw|]. split; [lia|]. split; [exact Ht|].
  split; [intros j Hj; apply Hbefore; lia|].
  destruct (BrokerTests.settled w) as [|m|]; try exact Hs.
  destruct Hs as (Hten & Hlast). split; [exact Hten|].
  intros j Hj. destruct (Nat.eq_dec j 9) as [-> | Hne]; [exact Hlast|].
  apply Hbefore. lia.
Qed.

(** X19.  The two test scripts disagree on what a market-data message is:
    the direct test counts a message whose [type] is the string "MD", the
    integration test one whose [type] is "Md"; so no message is counted as
    market data by both, and the integration test cannot pass on the
    messages that make the direct test succeed. *)
Theorem tests_disagree_on_market_data m :
  (BrokerTests.direct_class m = BrokerTests.MarketData
   <-> BrokerTests.msg_type m = BrokerTests.Text "MD") /\
  (BrokerTests.integration_class m = BrokerTests.MarketData
   <-> BrokerTests.msg_type m = BrokerTests.Text "Md") /\
  ~ (BrokerTests.direct_class m = BrokerTests.MarketData /\
     BrokerTests.integration_class m = BrokerTests.MarketData).
Proof.
  assert (D : BrokerTests.direct_class m = BrokerTests.MarketData
              <-> BrokerTests.msg_type m = BrokerTests.Text "MD").
  { unfold BrokerTests.direct_class, BrokerTests.msgType.
    destruct m as [[|s| |] st]; cbn [BrokerTests.msg_type BrokerTests.msg_status
                                      BrokerTests.field_truthy];
      try (destruct (BrokerTests.is_text st "ERROR"); simpl; split; discriminate).
    destruct (String.eqb_spec s "") as [-> | Hne]; cbn [negb].
    - destruct (BrokerTests.is_text st "ERROR"); simpl; split; discriminate.
    - cbn [BrokerTests.is_text]. destruct (String.eqb_spec s "MD") as [-> | Hmd].
      + split; reflexivity.
      + destruct (_ || _); simpl; split; try discriminate;
          intros H; exfalso; apply Hmd; injection H; auto. }
  assert (I : BrokerTests.integration_class m = BrokerTests.MarketData
              <-> BrokerTests.msg_type m = BrokerTests.Text "Md").
  { unfold BrokerTests.integration_class.
    destruct m as [[|s| |] st]; cbn [BrokerTests.msg_type BrokerTests.msg_status
                                      BrokerTests.is_text];
      try (destruct st as [|s'| |]; simpl; try destruct (String.eqb s' "ERROR");
           split; discriminate).
    destruct (String.eqb_spec s "Md") as [-> | Hmd]; [split; reflexivity|].
    destruct (BrokerTests.is_text st "ERROR");
      simpl; split; try discriminate; intros H; exfalso; apply Hmd; injection H; auto. }
  split; [exact D|]. split; [exact I|].
  intros [Hd Hi]. apply D in Hd. apply I in Hi. rewrite Hd in Hi. discriminate Hi.
Qed.

Lemma health_wait_is_bounded_witness :
  exists w,
    BrokerTests.waitForProxyHealth
      (fun k => if (k <? 3)%nat then BrokerTests.Errored else BrokerTests.Unanswered)
      = Some w /\
    BrokerTests.requests w = 4 /\ BrokerTests.settled w = BrokerTests.Pending.
Proof.
  destruct (health_wait_is_bounded
              (fun k => if (k <? 3)%nat then BrokerTests.Errored else BrokerTests.Unanswered))
    as (w & Hw & _).
  exists w. split; [exact Hw|]. vm_compute in Hw. injection Hw as <-. auto.
Defined.

(** ** Buffering has no bound *)

Lemma run_buffers_all lib env s fs :
  clientWs s = OPEN -> upstreamWs s = Some CONNECTING ->
  exists acts,
    run lib env s (map ClientMessage fs)
      = Some (set_messageBuffer (messageBuffer s ++ fs) s, acts) /\
    effects acts = [].
Proof.
  revert s. induction fs as [|f fs IH]; intros s C U.
  - exists []. simpl. rewrite app_nil_r. destruct s; auto.
  - destruct (IH (set_messageBuffer (messageBuffer s ++ [f]) s) C U) as (acts & R & E).
    eexists. split.
    + simpl. rewrite C. unfold on_client_message. rewrite U. rewrite R.
      simpl. rewrite <- app_assoc. reflexivity.
    + now rewrite effects_app, effects_log, E.
Qed.

(** X20.  Before the upstream leg opens the proxy accepts any number of
    client frames: every one of them is handled, all are kept in the
    buffer in arrival order, and the proxy does nothing else (no send, no
    close, no refusal), however many there are. *)
Theorem buffering_is_unbounded lib env s0 fs :
  initial lib env s0 ->
  exists s acts,
    run lib env s0 (map ClientMessage fs) = Some (s, acts) /\
    messageBuffer s = fs /\ length (messageBuffer s) = length fs /\
    effects acts = [] /\ isClosing s = false.
Proof.
  intros I. destruct (initial_fresh _ _ _ I) as (U & C & L & B).
  destruct (run_buffers_all lib env s0 fs C U) as (acts & R & E).
  exists (set_messageBuffer (messageBuffer s0 ++ fs) s0), acts.
  split; [exact R|]. simpl. rewrite B. simpl. auto.
Qed.

Lemma buffering_is_unbounded_witness :
  exists s acts,
    run Example.ws Example.env_open Example.s0
      (map ClientMessage (repeat Example.A 50)) = Some (s, acts) /\
    length (messageBuffer s) = 50.
Proof.
  destruct (buffering_is_unbounded Example.ws Example.env_open Example.s0
              (repeat Example.A 50) example_initial) as (s & acts & R & _ & L & _).
  exists s, acts. split; [exact R|]. rewrite L. apply repeat_length.
Defined.
